(** * An in-memory todo list served over net/http: model and properties

    Shallow embedding of [main.go]: the [Todo] record, the process-wide store
    ([todos], [nextID]), the four handlers and the route table registered in
    [main].  Handlers are functions from a request and a store to a response
    and a store; the mutex is not modelled (every handler body runs as one
    step). *)

From Stdlib Require Import ZArith Ascii String DecimalPos DecimalZ DecimalString.
From stdpp Require Import gmap strings list sorting.

Local Open Scope string_scope.
Local Open Scope Z_scope.

(** ** Go's [int] *)

(** [int] is 64 bits wide on the usual targets ([strconv.IntSize]; 32 on
    32-bit ones, where every bound below is reached that much sooner); signed
    arithmetic wraps around silently. *)
Definition intSize : Z := 64.
Definition maxInt : Z := 2 ^ (intSize - 1) - 1.
Definition minInt : Z := - 2 ^ (intSize - 1).

Definition wrapInt (z : Z) : Z :=
  (z + 2 ^ (intSize - 1)) `mod` 2 ^ intSize - 2 ^ (intSize - 1).

Definition isInt (z : Z) : Prop := minInt ≤ z ≤ maxInt.

(** ** Data model *)

Record Todo := mkTodo {
  ID : Z;
  Title : string;
  Done : bool
}.

Record CreateTodoRequest := mkCreateTodoRequest {
  reqTitle : string
}.

(** The package-level variables [todos] and [nextID]. *)
Record Store := mkStore {
  todos : gmap Z Todo;
  nextID : Z
}.

Definition initStore : Store := {| todos := ∅; nextID := 1 |}.

(** ** JSON values, as [encoding/json] reads and writes them *)

#[warnings="-register-all"]
Inductive Json :=
| JNull
| JBool (b : bool)
| JNumber (literal : string)
| JString (s : string)
| JArray (items : list Json)
| JObject (members : list (string * Json)).

(** ** strconv *)

Definition digitVal (c : ascii) : option Z :=
  let n := Z.of_N (N_of_ascii c) in
  if bool_decide (48 ≤ n ≤ 57) then Some (n - 48) else None.

Fixpoint parseDigits (s : string) (acc : Z) : option Z :=
  match s with
  | EmptyString => Some acc
  | String c rest =>
      match digitVal c with
      | Some d => parseDigits rest (10 * acc + d)
      | None => None
      end
  end.

(** [strconv.Atoi]: an optional sign, then one or more decimal digits; a value
    outside [int] is a range error.  [None] stands for any error. *)
Definition Atoi (s : string) : option Z :=
  let '(neg, digits) :=
    match s with
    | String "+"%char rest => (false, rest)
    | String "-"%char rest => (true, rest)
    | _ => (false, s)
    end in
  match digits with
  | EmptyString => None
  | _ =>
      match parseDigits digits 0 with
      | Some n =>
          let v := if neg then - n else n in
          if bool_decide (minInt ≤ v ≤ maxInt) then Some v else None
      | None => None
      end
  end.

(** [strconv.Itoa] / the decimal text of an integer map key. *)
Definition Itoa (z : Z) : string := NilZero.string_of_int (Z.to_int z).

(** ** net/http requests and responses *)

(** What a handler reads of [*http.Request]: [r.Method], [r.URL.Path],
    [r.URL.Query()] and the first JSON value on [r.Body] ([None] when the
    decoder cannot read one: empty body or malformed text). *)
Record Request := mkRequest {
  Method : string;
  Path : string;
  Query : gmap string (list string);
  Body : option Json
}.

Inductive Payload :=
| Empty
| Text (s : string)
| JsonDoc (j : Json).

(** What a handler leaves on the [http.ResponseWriter]: the status line
    (200 when [WriteHeader] is never called), the [Content-Type] header if the
    handler set one, and what was written: nothing, a line of text, or the
    value handed to the JSON encoder (which writes it on one line). *)
Record Response := mkResponse {
  Status : Z;
  ContentType : option string;
  RespBody : Payload
}.

Definition MethodGet : string := "GET".
Definition MethodPost : string := "POST".
Definition MethodPut : string := "PUT".
Definition MethodDelete : string := "DELETE".

Definition StatusOK : Z := 200.
Definition StatusNoContent : Z := 204.
Definition StatusBadRequest : Z := 400.
Definition StatusNotFound : Z := 404.
Definition StatusMethodNotAllowed : Z := 405.

Definition applicationJSON : string := "application/json".

(** A response that is only a status line: [w.WriteHeader(status); return]. *)
Definition errorResponse (status : Z) (ct : option string) : Response :=
  {| Status := status; ContentType := ct; RespBody := Empty |}.

(** [url.Values.Get]: the first value of the key, or the empty string. *)
Definition Get (v : gmap string (list string)) (key : string) : string :=
  match v !! key with
  | Some (x :: _) => x
  | _ => ""
  end.

(** ** encoding/json on the two Go types *)

Definition lowerAscii (c : ascii) : ascii :=
  let n := N_of_ascii c in
  if bool_decide (65 ≤ n ≤ 90)%N then ascii_of_N (n + 32) else c.

Fixpoint lowerString (s : string) : string :=
  match s with
  | EmptyString => EmptyString
  | String c rest => String (lowerAscii c) (lowerString rest)
  end.

(** A JSON key selects a struct field when it equals the field's JSON name
    up to letter case. *)
Definition matchesField (name key : string) : bool :=
  bool_decide (lowerString key = lowerString name).

(** Decoding the members of a JSON object into a [CreateTodoRequest]: a string
    under [title] is stored (the last one wins), [null] leaves the field as it
    is, any other value is a type error, other keys are skipped. *)
Fixpoint decodeMembers (ms : list (string * Json)) (req : CreateTodoRequest)
  : option CreateTodoRequest :=
  match ms with
  | [] => Some req
  | (k, v) :: rest =>
      if matchesField "title" k then
        match v with
        | JString t => decodeMembers rest {| reqTitle := t |}
        | JNull => decodeMembers rest req
        | _ => None
        end
      else decodeMembers rest req
  end.

(** [json.NewDecoder(r.Body).Decode(&req)] with [req] zero-valued; [None] is a
    non-nil [err]. *)
Definition decodeCreateTodoRequest (body : option Json) : option CreateTodoRequest :=
  match body with
  | None => None
  | Some JNull => Some {| reqTitle := "" |}
  | Some (JObject ms) => decodeMembers ms {| reqTitle := "" |}
  | Some _ => None
  end.

Definition encodeTodo (t : Todo) : Json :=
  JObject [("id", JNumber (Itoa (ID t)));
           ("title", JString (Title t));
           ("done", JBool (Done t))].

Definition keyLe (a b : string * Json) : Prop := (a.1 <=? b.1)%string = true.

#[global] Instance keyLe_dec a b : Decision (keyLe a b).
Proof. unfold keyLe. apply _. Defined.

Definition encodeEntry (kv : Z * Todo) : string * Json :=
  (Itoa kv.1, encodeTodo kv.2).

(** A [map[int]Todo] is written as one JSON object, integer keys in decimal,
    members ordered by key text. *)
Definition encodeTodos (m : gmap Z Todo) : Json :=
  JObject (merge_sort keyLe (encodeEntry <$> map_to_list m)).

(** ** The store operations: the critical section of each handler *)

(** [createTodoHandler], between [mu.Lock()] and the response. *)
Definition Create (title : string) (s : Store) : Todo * Store :=
  let todo := {| ID := nextID s; Title := title; Done := false |} in
  (todo, {| todos := <[nextID s := todo]> (todos s);
            nextID := wrapInt (nextID s + 1) |}).

(** [updateTodoHandler], between [mu.Lock()] and the response. *)
Definition MarkDone (id : Z) (s : Store) : option Todo * Store :=
  match todos s !! id with
  | None => (None, s)
  | Some todo =>
      let todo := {| ID := ID todo; Title := Title todo; Done := true |} in
      (Some todo, {| todos := <[id := todo]> (todos s); nextID := nextID s |})
  end.

(** [deleteTodoHandler], between [mu.Lock()] and the response. *)
Definition Delete (id : Z) (s : Store) : bool * Store :=
  match todos s !! id with
  | None => (false, s)
  | Some _ => (true, {| todos := delete id (todos s); nextID := nextID s |})
  end.

(** [getTodosHandler], between [mu.Lock()] and the response. *)
Definition ListAll (s : Store) : gmap Z Todo * Store := (todos s, s).

(** ** The handlers *)

Definition getTodosHandler (r : Request) (s : Store) : Response * Store :=
  let '(m, s') := ListAll s in
  ({| Status := StatusOK; ContentType := Some applicationJSON;
      RespBody := JsonDoc (encodeTodos m) |}, s').

Definition createTodoHandler (r : Request) (s : Store) : Response * Store :=
  if bool_decide (Method r ≠ MethodPost) then
    ({| Status := StatusMethodNotAllowed; ContentType := None;
        RespBody := Empty |}, s)
  else
    match decodeCreateTodoRequest (Body r) with
    | None =>
        ({| Status := StatusBadRequest; ContentType := Some applicationJSON;
            RespBody := Empty |}, s)
    | Some req =>
        let '(todo, s') := Create (reqTitle req) s in
        ({| Status := StatusOK; ContentType := Some applicationJSON;
            RespBody := JsonDoc (encodeTodo todo) |}, s')
    end.

Definition updateTodoHandler (r : Request) (s : Store) : Response * Store :=
  if bool_decide (Method r ≠ MethodPut) then
    ({| Status := StatusMethodNotAllowed; ContentType := None;
        RespBody := Empty |}, s)
  else
    let idStr := Get (Query r) "id" in
    if bool_decide (idStr = "") then
      ({| Status := StatusBadRequest; ContentType := Some applicationJSON;
          RespBody := Empty |}, s)
    else
      match Atoi idStr with
      | None =>
          ({| Status := StatusBadRequest; ContentType := Some applicationJSON;
              RespBody := Empty |}, s)
      | Some id =>
          match MarkDone id s with
          | (None, s') =>
              ({| Status := StatusNotFound; ContentType := Some applicationJSON;
                  RespBody := Empty |}, s')
          | (Some todo, s') =>
              ({| Status := StatusOK; ContentType := Some applicationJSON;
                  RespBody := JsonDoc (encodeTodo todo) |}, s')
          end
      end.

Definition deleteTodoHandler (r : Request) (s : Store) : Response * Store :=
  if bool_decide (Method r ≠ MethodDelete) then
    ({| Status := StatusMethodNotAllowed; ContentType := None;
        RespBody := Empty |}, s)
  else
    let idStr := Get (Query r) "id" in
    if bool_decide (idStr = "") then
      ({| Status := StatusBadRequest; ContentType := None;
          RespBody := Empty |}, s)
    else
      match Atoi idStr with
      | None =>
          ({| Status := StatusBadRequest; ContentType := None;
              RespBody := Empty |}, s)
      | Some id =>
          match Delete id s with
          | (false, s') =>
              ({| Status := StatusNotFound; ContentType := None;
                  RespBody := Empty |}, s')
          | (true, s') =>
              ({| Status := StatusNoContent; ContentType := None;
                  RespBody := Empty |}, s')
          end
      end.

(** The routes registered in [main] on the default mux: each pattern matches
    its path exactly and any method; any other path gets the mux's own 404.
    [Path] is the cleaned path the mux matches on: a request whose path is
    not in that form (a doubled slash, a dot segment) is answered by the mux
    with a redirect to the cleaned path, reaches no handler and leaves the
    store alone; such requests are not represented here. *)
Definition serve (r : Request) (s : Store) : Response * Store :=
  if bool_decide (Path r = "/todos") then getTodosHandler r s
  else if bool_decide (Path r = "/todos/create") then createTodoHandler r s
  else if bool_decide (Path r = "/todos/update") then updateTodoHandler r s
  else if bool_decide (Path r = "/todos/delete") then deleteTodoHandler r s
  else ({| Status := StatusNotFound; ContentType := Some "text/plain; charset=utf-8";
           RespBody := Text "404 page not found" |}, s).

(** ** Sequences of operations *)

Inductive Op :=
| OpList
| OpCreate (title : string)
| OpMarkDone (id : Z)
| OpDelete (id : Z).

Definition exec (op : Op) (s : Store) : Store :=
  match op with
  | OpList => (ListAll s).2
  | OpCreate title => (Create title s).2
  | OpMarkDone id => (MarkDone id s).2
  | OpDelete id => (Delete id s).2
  end.

(** The id an operation hands out, if it is a Create. *)
Definition issuedBy (op : Op) (s : Store) : list Z :=
  match op with
  | OpCreate title => [ID (Create title s).1]
  | _ => []
  end.

(** A store together with the ids issued so far, most recent first. *)
Record Traced := mkTraced {
  store : Store;
  issued : list Z
}.

Definition tstep (t : Traced) (op : Op) : Traced :=
  {| store := exec op (store t); issued := issuedBy op (store t) ++ issued t |}.

Definition runFrom (t : Traced) (ops : list Op) : Traced := foldl tstep t ops.

Definition run (ops : list Op) : Traced :=
  runFrom {| store := initStore; issued := [] |} ops.

Definition isCreate (op : Op) : bool :=
  match op with OpCreate _ => true | _ => false end.

Definition creates (ops : list Op) : Z := Z.of_nat (length (filter isCreate ops)).

Definition reachable (s : Store) : Prop := ∃ ops, s = store (run ops).

(** Newest-first lists of ids in which every id is larger than all the ids
    issued before it. *)
Definition increasing (ids : list Z) : Prop :=
  StronglySorted (λ later earlier, earlier < later) ids.

(** Every entry of the map sits under its own id. *)
Definition coherent (s : Store) : Prop :=
  ∀ k t, todos s !! k = Some t → ID t = k.

(** Keys and issued ids are positive and below [nextID]; the issued ids grow. *)
Definition belowNext (t : Traced) : Prop :=
  (∀ k, is_Some (todos (store t) !! k) → 1 ≤ k < nextID (store t)) ∧
  (∀ id, id ∈ issued t → 1 ≤ id < nextID (store t)) ∧
  increasing (issued t).

(** One Create immediately followed by the Delete of the id it issued. *)
Definition churn (i : Z) : list Op := [OpCreate ""; OpDelete i].

(** [churns a n]: [n] rounds of [churn] for the ids [a], [a+1], ... *)
Fixpoint churns (a : Z) (n : nat) : list Op :=
  match n with
  | O => []
  | S n' => churn a ++ churns (a + 1) n'
  end.

(** ** Auxiliary predicates for the statements below *)

(** A JSON value that cannot be stored in the string field [Title]. *)
Definition rejectsTitle (v : Json) : bool :=
  match v with
  | JString _ | JNull => false
  | _ => true
  end.

(** A member that names the [title] field with a value of the wrong type. *)
Definition badMember (kv : string * Json) : bool :=
  matchesField "title" kv.1 && rejectsTitle kv.2.

Definition isDigit (c : ascii) : bool :=
  bool_decide (48 ≤ Z.of_N (N_of_ascii c) ≤ 57).

Fixpoint allDigits (s : string) : bool :=
  match s with
  | EmptyString => true
  | String c rest => isDigit c && allDigits rest
  end.

(** Serving a list of requests one after the other. *)
Fixpoint serveAll (rs : list Request) (s : Store) : list Response * Store :=
  match rs with
  | [] => ([], s)
  | r :: rest =>
      let '(a, s1) := serve r s in
      let '(answers, s2) := serveAll rest s1 in
      (a :: answers, s2)
  end.

(** * Properties *)

(** ** Machine integers *)

Lemma maxInt_val : maxInt = 9223372036854775807.
Proof. reflexivity. Qed.

Lemma minInt_val : minInt = -9223372036854775808.
Proof. reflexivity. Qed.

Lemma wrapInt_isInt z : isInt z → wrapInt z = z.
Proof.
  unfold isInt, wrapInt. rewrite maxInt_val, minInt_val.
  change (2 ^ (intSize - 1)) with 9223372036854775808.
  change (2 ^ intSize) with 18446744073709551616.
  intros H. rewrite Z.mod_small; lia.
Qed.

Lemma wrapInt_succ z : isInt z → z ≠ maxInt → wrapInt (z + 1) = z + 1.
Proof.
  intros [Hlo Hhi] Hne. apply wrapInt_isInt. unfold isInt in *. lia.
Qed.

Lemma wrapInt_maxInt : wrapInt (maxInt + 1) = minInt.
Proof. reflexivity. Qed.

Lemma isInt_maxInt : isInt maxInt.
Proof. unfold isInt. rewrite maxInt_val, minInt_val. lia. Qed.

(** ** Decimal text of integers *)

Lemma digitVal_digits :
  digitVal "0" = Some 0 ∧ digitVal "1" = Some 1 ∧ digitVal "2" = Some 2 ∧
  digitVal "3" = Some 3 ∧ digitVal "4" = Some 4 ∧ digitVal "5" = Some 5 ∧
  digitVal "6" = Some 6 ∧ digitVal "7" = Some 7 ∧ digitVal "8" = Some 8 ∧
  digitVal "9" = Some 9.
Proof. repeat split. Qed.

Lemma parseDigits_cons c rest acc d :
  digitVal c = Some d →
  parseDigits (String c rest) acc = parseDigits rest (10 * acc + d).
Proof. intros H. simpl. by rewrite H. Qed.

Lemma parseDigits_uint_acc d : ∀ a,
  parseDigits (NilEmpty.string_of_uint d) (Z.pos a) = Some (Z.pos (Pos.of_uint_acc d a)).
Proof.
  induction d as [|d IH|d IH|d IH|d IH|d IH|d IH|d IH|d IH|d IH|d IH];
    intros a; [done|..];
    cbn [NilEmpty.string_of_uint Pos.of_uint_acc];
    erewrite parseDigits_cons by apply digitVal_digits;
    rewrite <- IH; f_equal; lia.
Qed.

Lemma parseDigits_uint d :
  parseDigits (NilEmpty.string_of_uint d) 0 = Some (Z.of_N (Pos.of_uint d)).
Proof.
  induction d as [|d IH|d IH|d IH|d IH|d IH|d IH|d IH|d IH|d IH|d IH];
    [done|..];
    cbn [NilEmpty.string_of_uint Pos.of_uint];
    erewrite parseDigits_cons by apply digitVal_digits;
    [exact IH | apply (parseDigits_uint_acc d) ..].
Qed.

Lemma Atoi_unsigned d :
  d ≠ Decimal.Nil → isInt (Z.of_N (Pos.of_uint d)) →
  Atoi (NilEmpty.string_of_uint d) = Some (Z.of_N (Pos.of_uint d)).
Proof.
  intros Hd Hint. pose proof (parseDigits_uint d) as Hp.
  destruct d; [done|..];
    unfold Atoi; cbn [NilEmpty.string_of_uint] in *;
    rewrite Hp; by rewrite bool_decide_eq_true_2.
Qed.

Lemma Atoi_negative d :
  d ≠ Decimal.Nil → isInt (- Z.of_N (Pos.of_uint d)) →
  Atoi (String "-" (NilEmpty.string_of_uint d)) = Some (- Z.of_N (Pos.of_uint d)).
Proof.
  intros Hd Hint. pose proof (parseDigits_uint d) as Hp.
  destruct d; [done|..];
    unfold Atoi; cbn [NilEmpty.string_of_uint] in *;
    rewrite Hp; by rewrite bool_decide_eq_true_2.
Qed.

(** Every [int] is read back from its decimal text. *)
Lemma Atoi_Itoa z : isInt z → Atoi (Itoa z) = Some z.
Proof.
  intros Hint. destruct z as [|p|p].
  - reflexivity.
  - unfold Itoa. cbn [Z.to_int NilZero.string_of_int].
    pose proof (DecimalPos.Unsigned.to_uint_nonnil p) as Hnn.
    pose proof (DecimalPos.Unsigned.of_to p) as Hof.
    replace (NilZero.string_of_uint (Pos.to_uint p))
      with (NilEmpty.string_of_uint (Pos.to_uint p))
      by (by destruct (Pos.to_uint p)).
    rewrite Atoi_unsigned; rewrite ?Hof; done.
  - unfold Itoa. cbn [Z.to_int NilZero.string_of_int].
    pose proof (DecimalPos.Unsigned.to_uint_nonnil p) as Hnn.
    pose proof (DecimalPos.Unsigned.of_to p) as Hof.
    replace (NilZero.string_of_uint (Pos.to_uint p))
      with (NilEmpty.string_of_uint (Pos.to_uint p))
      by (by destruct (Pos.to_uint p)).
    rewrite Atoi_negative; rewrite ?Hof; done.
Qed.

Lemma Atoi_isInt s z : Atoi s = Some z → isInt z.
Proof.
  unfold Atoi.
  destruct (match s with
            | String "+"%char rest => (false, rest)
            | String "-"%char rest => (true, rest)
            | _ => (false, s)
            end) as [neg digits].
  destruct digits; [done|].
  destruct (parseDigits _ 0) as [n|]; [|done].
  case_bool_decide; [|done]. by intros [= <-].
Qed.

(** ** Sanity checks of the model *)

Example Atoi_examples :
  Atoi "12" = Some 12 ∧ Atoi "-7" = Some (-7) ∧ Atoi "+0" = Some 0 ∧
  Atoi "007" = Some 7 ∧ Atoi "" = None ∧ Atoi "-" = None ∧
  Atoi "1.5" = None ∧ Atoi "abc" = None ∧ Atoi " 1" = None ∧
  Atoi "9223372036854775807" = Some maxInt ∧
  Atoi "9223372036854775808" = None ∧
  Atoi "-9223372036854775808" = Some minInt.
Proof. repeat split. Qed.

Example decode_examples :
  decodeCreateTodoRequest (Some (JObject [("title", JString "a")]))
    = Some {| reqTitle := "a" |} ∧
  decodeCreateTodoRequest (Some (JObject [("Title", JString "a"); ("title", JString "b")]))
    = Some {| reqTitle := "b" |} ∧
  decodeCreateTodoRequest (Some (JObject [("note", JNumber "1")]))
    = Some {| reqTitle := "" |} ∧
  decodeCreateTodoRequest (Some (JObject [("title", JNumber "1")])) = None ∧
  decodeCreateTodoRequest (Some (JArray [])) = None ∧
  decodeCreateTodoRequest None = None.
Proof. repeat split. Qed.

(** Create, mark done, delete, then mark done again: 200 with the new todo,
    200 with the todo done, 204 without a body, 404. *)
Example end_to_end :
  let create := {| Method := "POST"; Path := "/todos/create"; Query := ∅;
                   Body := Some (JObject [("title", JString "buy milk")]) |} in
  let update := {| Method := "PUT"; Path := "/todos/update";
                   Query := {["id" := ["1"]]}; Body := None |} in
  let delete := {| Method := "DELETE"; Path := "/todos/delete";
                   Query := {["id" := ["1"]]}; Body := None |} in
  let s1 := (serve create initStore).2 in
  let s2 := (serve update s1).2 in
  let s3 := (serve delete s2).2 in
  RespBody (serve {| Method := "GET"; Path := "/todos"; Query := ∅; Body := None |}
                  initStore).1 = JsonDoc (JObject []) ∧
  (serve create initStore).1 =
    {| Status := 200; ContentType := Some applicationJSON;
       RespBody := JsonDoc (encodeTodo {| ID := 1; Title := "buy milk"; Done := false |}) |} ∧
  (serve update s1).1 =
    {| Status := 200; ContentType := Some applicationJSON;
       RespBody := JsonDoc (encodeTodo {| ID := 1; Title := "buy milk"; Done := true |}) |} ∧
  (serve delete s2).1 = errorResponse 204 None ∧
  (serve update s3).1 = errorResponse 404 (Some applicationJSON) ∧
  s3 = {| todos := ∅; nextID := 2 |}.
Proof. repeat split. Qed.

(** Rewrites a handler's method test once [Hm] gives the expected method. *)
Ltac pass_guard Hm :=
  rewrite Hm, bool_decide_eq_false_2 by (intros H; by apply H).

(** ** Getters of the store operations *)

Lemma Create_todo title s :
  (Create title s).1 = {| ID := nextID s; Title := title; Done := false |}.
Proof. reflexivity. Qed.

Lemma Create_todos title s :
  todos (Create title s).2 = <[nextID s := (Create title s).1]> (todos s).
Proof. reflexivity. Qed.

Lemma Create_nextID title s :
  nextID (Create title s).2 = wrapInt (nextID s + 1).
Proof. reflexivity. Qed.

Lemma MarkDone_nextID id s : nextID (MarkDone id s).2 = nextID s.
Proof. unfold MarkDone. by destruct (todos s !! id). Qed.

Lemma Delete_nextID id s : nextID (Delete id s).2 = nextID s.
Proof. unfold Delete. by destruct (todos s !! id). Qed.

Lemma Delete_absent id s : todos s !! id = None → Delete id s = (false, s).
Proof. intros H. unfold Delete. by rewrite H. Qed.

Lemma MarkDone_absent id s : todos s !! id = None → MarkDone id s = (None, s).
Proof. intros H. unfold MarkDone. by rewrite H. Qed.

Lemma Atoi_empty : Atoi "" = None.
Proof. reflexivity. Qed.

(** An object none of whose keys names the [title] field decodes to the zero
    request, whatever [req] held on entry is kept. *)
Lemma decodeMembers_no_title ms req :
  Forall (λ kv, matchesField "title" kv.1 = false) ms →
  decodeMembers ms req = Some req.
Proof.
  induction 1 as [|[k v] ms Hk _ IH]; simpl in *; [done|].
  by rewrite Hk.
Qed.

(** ** Create *)

(** C1 (amended): for every store state whose [nextID] is an [int] value and
    every title, Create returns the todo [{nextID, title, false}], stores it
    under that id, and moves [nextID] to [nextID + 1], except at the largest
    [int], where the increment wraps to the smallest one.  The handler answers
    200 with that todo for any body that decodes, and a JSON object without a
    [title] key (or a [null] body) decodes to the empty title. *)
Theorem Create_spec (s : Store) (title : string) :
  isInt (nextID s) →
  let todo := (Create title s).1 in
  let s' := (Create title s).2 in
  todo = {| ID := nextID s; Title := title; Done := false |} ∧
  todos s' = <[nextID s := todo]> (todos s) ∧
  todos s' !! nextID s = Some todo ∧
  nextID s' = (if bool_decide (nextID s = maxInt) then minInt else nextID s + 1) ∧
  (∀ r, Method r = MethodPost →
        decodeCreateTodoRequest (Body r) = Some {| reqTitle := title |} →
        createTodoHandler r s =
          ({| Status := StatusOK; ContentType := Some applicationJSON;
              RespBody := JsonDoc (encodeTodo todo) |}, s')) ∧
  (∀ ms, Forall (λ kv, matchesField "title" kv.1 = false) ms →
         decodeCreateTodoRequest (Some (JObject ms)) = Some {| reqTitle := "" |}) ∧
  decodeCreateTodoRequest (Some JNull) = Some {| reqTitle := "" |}.
Proof.
  intros Hint todo s'. subst todo s'.
  split; [reflexivity|]. split; [reflexivity|].
  split; [rewrite Create_todos; apply lookup_insert_eq|].
  split.
  - rewrite Create_nextID. case_bool_decide as Hmax.
    + rewrite Hmax. apply wrapInt_maxInt.
    + by apply wrapInt_succ.
  - split; [|split].
    + intros r Hm Hdec. unfold createTodoHandler.
      pass_guard Hm.
      by rewrite Hdec.
    + intros ms Hms. simpl. by apply decodeMembers_no_title.
    + reflexivity.
Qed.

Lemma Create_spec_witness :
  let s := {| todos := ∅; nextID := 1 |} in
  isInt (nextID s) ∧
  (Create "buy milk" s).1 = {| ID := 1; Title := "buy milk"; Done := false |} ∧
  nextID (Create "buy milk" s).2 = 2.
Proof.
  assert (Hint : isInt (nextID {| todos := ∅; nextID := 1 |})).
  { unfold isInt. rewrite maxInt_val, minInt_val. simpl. lia. }
  split; [exact Hint|].
  pose proof (Create_spec {| todos := ∅; nextID := 1 |} "buy milk" Hint) as H.
  destruct H as (Ht & _ & _ & Hn & _).
  split; [exact Ht|]. rewrite Hn. reflexivity.
Defined.

(** C1 as stated fails at the largest [int]: there [nextID++] wraps to the
    smallest [int] instead of growing by one. *)
Lemma Create_increment_overflow :
  let s := {| todos := ∅; nextID := maxInt |} in
  isInt (nextID s) ∧
  nextID (Create "" s).2 = minInt ∧
  nextID (Create "" s).2 ≠ nextID s + 1.
Proof.
  split; [apply isInt_maxInt|]. split; [reflexivity|].
  simpl. rewrite wrapInt_maxInt, maxInt_val, minInt_val. lia.
Qed.

(** ** MarkDone *)

Lemma MarkDone_present id s todo :
  todos s !! id = Some todo →
  MarkDone id s =
    (Some {| ID := ID todo; Title := Title todo; Done := true |},
     {| todos := <[id := {| ID := ID todo; Title := Title todo; Done := true |}]> (todos s);
        nextID := nextID s |}).
Proof. intros H. unfold MarkDone. by rewrite H. Qed.

(** C3: on an id present in the map a second MarkDone returns the same todo
    as the first, with [done = true], and leaves the store as the first call
    left it; the same holds for two PUT requests to the update handler. *)
Theorem MarkDone_idempotent (s : Store) (id : Z) :
  is_Some (todos s !! id) →
  let once := MarkDone id s in
  let twice := MarkDone id once.2 in
  twice.2 = once.2 ∧
  twice.1 = once.1 ∧
  (∃ todo, once.1 = Some todo ∧ Done todo = true ∧
           todos once.2 !! id = Some todo) ∧
  (∀ r, Method r = MethodPut → Atoi (Get (Query r) "id") = Some id →
        Status (updateTodoHandler r s).1 = StatusOK ∧
        updateTodoHandler r (updateTodoHandler r s).2 = updateTodoHandler r s).
Proof.
  intros [todo Hin] once twice. subst once twice.
  rewrite (MarkDone_present _ _ _ Hin). simpl.
  set (done := {| ID := ID todo; Title := Title todo; Done := true |}).
  set (s1 := {| todos := <[id:=done]> (todos s); nextID := nextID s |}).
  assert (Hin1 : todos s1 !! id = Some done) by apply lookup_insert_eq.
  assert (Hs1 : MarkDone id s1 = (Some done, s1)).
  { rewrite (MarkDone_present _ _ _ Hin1). simpl. subst s1. simpl.
    by rewrite insert_insert_eq. }
  rewrite Hs1. simpl.
  split; [done|]. split; [done|]. split; [by exists done|].
  intros r Hm Hid.
  assert (Hne : Get (Query r) "id" ≠ "").
  { intros He. rewrite He, Atoi_empty in Hid. discriminate. }
  unfold updateTodoHandler.
  pass_guard Hm.
  rewrite bool_decide_eq_false_2 by done.
  rewrite Hid, (MarkDone_present _ _ _ Hin). simpl.
  fold done. fold s1. by rewrite Hs1.
Qed.

Lemma MarkDone_idempotent_witness :
  let s := (Create "buy milk" initStore).2 in
  is_Some (todos s !! 1) ∧ (MarkDone 1 (MarkDone 1 s).2).2 = (MarkDone 1 s).2.
Proof.
  assert (H : is_Some (todos (Create "buy milk" initStore).2 !! 1)).
  { eexists. reflexivity. }
  split; [exact H|].
  exact (proj1 (MarkDone_idempotent (Create "buy milk" initStore).2 1 H)).
Defined.

(** ** Errors on the [id] query parameter *)

Lemma Get_missing (q : gmap string (list string)) key :
  q !! key = None → Get q key = "".
Proof. intros H. unfold Get. by rewrite H. Qed.

(** C4: on /todos/update with PUT and on /todos/delete with DELETE, a request
    without an [id] parameter and one whose [id] does not parse as an [int]
    get 400, one whose [id] parses but is not a key of the map gets 404; the
    response has no body and the store is returned as it was. *)
Theorem id_errors_leave_store (r : Request) (s : Store) :
  (Method r = MethodPut →
     (Query r !! "id" = None →
        updateTodoHandler r s = (errorResponse StatusBadRequest (Some applicationJSON), s)) ∧
     (Atoi (Get (Query r) "id") = None →
        updateTodoHandler r s = (errorResponse StatusBadRequest (Some applicationJSON), s)) ∧
     (∀ id, Atoi (Get (Query r) "id") = Some id → todos s !! id = None →
        updateTodoHandler r s = (errorResponse StatusNotFound (Some applicationJSON), s))) ∧
  (Method r = MethodDelete →
     (Query r !! "id" = None →
        deleteTodoHandler r s = (errorResponse StatusBadRequest None, s)) ∧
     (Atoi (Get (Query r) "id") = None →
        deleteTodoHandler r s = (errorResponse StatusBadRequest None, s)) ∧
     (∀ id, Atoi (Get (Query r) "id") = Some id → todos s !! id = None →
        deleteTodoHandler r s = (errorResponse StatusNotFound None, s))).
Proof.
  split; intros Hm.
  - unfold updateTodoHandler.
    pass_guard Hm.
    split; [|split].
    + intros Hq. by rewrite (Get_missing _ _ Hq), bool_decide_eq_true_2.
    + intros Hp. rewrite Hp. by case_bool_decide.
    + intros id Hp Hout. rewrite Hp.
      rewrite bool_decide_eq_false_2.
      * by rewrite (MarkDone_absent _ _ Hout).
      * intros He. rewrite He, Atoi_empty in Hp. discriminate.
  - unfold deleteTodoHandler.
    pass_guard Hm.
    split; [|split].
    + intros Hq. by rewrite (Get_missing _ _ Hq), bool_decide_eq_true_2.
    + intros Hp. rewrite Hp. by case_bool_decide.
    + intros id Hp Hout. rewrite Hp.
      rewrite bool_decide_eq_false_2.
      * by rewrite (Delete_absent _ _ Hout).
      * intros He. rewrite He, Atoi_empty in Hp. discriminate.
Qed.

Lemma id_errors_leave_store_witness :
  let s := (Create "buy milk" initStore).2 in
  let put q := {| Method := "PUT"; Path := "/todos/update"; Query := q; Body := None |} in
  let del q := {| Method := "DELETE"; Path := "/todos/delete"; Query := q; Body := None |} in
  updateTodoHandler (put ∅) s = (errorResponse 400 (Some applicationJSON), s) ∧
  updateTodoHandler (put {["id" := ["abc"]]}) s = (errorResponse 400 (Some applicationJSON), s) ∧
  updateTodoHandler (put {["id" := ["7"]]}) s = (errorResponse 404 (Some applicationJSON), s) ∧
  deleteTodoHandler (del ∅) s = (errorResponse 400 None, s) ∧
  deleteTodoHandler (del {["id" := ["1.5"]]}) s = (errorResponse 400 None, s) ∧
  deleteTodoHandler (del {["id" := ["0"]]}) s = (errorResponse 404 None, s).
Proof.
  intros s put del.
  split; [|split; [|split; [|split; [|split]]]].
  - apply (proj1 (id_errors_leave_store (put ∅) s)); reflexivity.
  - apply (proj1 (id_errors_leave_store (put {["id" := ["abc"]]}) s)); reflexivity.
  - apply (proj1 (id_errors_leave_store (put {["id" := ["7"]]}) s) eq_refl)
      with (id := 7); reflexivity.
  - apply (proj2 (id_errors_leave_store (del ∅) s)); reflexivity.
  - apply (proj2 (id_errors_leave_store (del {["id" := ["1.5"]]}) s)); reflexivity.
  - apply (proj2 (id_errors_leave_store (del {["id" := ["0"]]}) s) eq_refl)
      with (id := 0); reflexivity.
Defined.

(** ** The JSON written for a todo and for the map *)

Lemma Itoa_inj a b : Itoa a = Itoa b → a = b.
Proof.
  unfold Itoa. intros H.
  assert (Hnn : ∀ z, Z.to_int z ≠ Decimal.Pos Decimal.Nil ∧
                     Z.to_int z ≠ Decimal.Neg Decimal.Nil).
  { intros [|p|p]; simpl; split; try discriminate;
      intros [= Hp]; by apply DecimalPos.Unsigned.to_uint_nonnil in Hp. }
  apply DecimalZ.to_int_inj.
  assert (Hs : NilZero.int_of_string (NilZero.string_of_int (Z.to_int a)) =
               NilZero.int_of_string (NilZero.string_of_int (Z.to_int b)))
    by (by rewrite H).
  rewrite !NilZero.isi in Hs by apply Hnn. congruence.
Qed.

Lemma encodeTodo_inj t u : encodeTodo t = encodeTodo u → t = u.
Proof.
  destruct t as [i a d], u as [j b e]. unfold encodeTodo. simpl.
  intros [= Hi -> ->]. by rewrite (Itoa_inj _ _ Hi).
Qed.

Lemma encodeTodos_members (m : gmap Z Todo) :
  ∃ members,
    encodeTodos m = JObject members ∧
    (∀ key v, (key, v) ∈ members ↔
              ∃ id t, m !! id = Some t ∧ key = Itoa id ∧ v = encodeTodo t) ∧
    NoDup members.*1.
Proof.
  eexists. split; [reflexivity|]. split.
  - intros key v. rewrite merge_sort_Permutation, list_elem_of_fmap. split.
    + intros [[id t] [Heq Hin]]. apply elem_of_map_to_list in Hin.
      injection Heq as -> ->. by exists id, t.
    + intros (id & t & Hin & -> & ->). exists (id, t).
      split; [done|]. by apply elem_of_map_to_list.
  - rewrite merge_sort_Permutation, <- list_fmap_compose.
    apply (NoDup_fmap_2_strong (fst ∘ encodeEntry)).
    + intros [a t] [b u] Ha Hb Heq. simpl in Heq.
      apply Itoa_inj in Heq as ->.
      apply elem_of_map_to_list in Ha, Hb. congruence.
    + apply NoDup_map_to_list.
Qed.

Lemma encodeTodos_empty : encodeTodos ∅ = JObject [].
Proof. reflexivity. Qed.

(** ** Delete *)

(** C6: on an id present in the map Delete removes that entry only: the new
    map is the old one without the key, every other entry and [nextID] are
    as before; the handler answers 204 without a body, the list written
    afterwards has no member under that id, and a second Delete gets 404. *)
Theorem Delete_frame (s : Store) (id : Z) :
  is_Some (todos s !! id) →
  let s' := (Delete id s).2 in
  (Delete id s).1 = true ∧
  todos s' = delete id (todos s) ∧
  nextID s' = nextID s ∧
  (∀ k, k ≠ id → todos s' !! k = todos s !! k) ∧
  (ListAll s').1 !! id = None ∧
  Delete id s' = (false, s') ∧
  (∀ r, Method r = MethodDelete → Atoi (Get (Query r) "id") = Some id →
        deleteTodoHandler r s = (errorResponse StatusNoContent None, s') ∧
        deleteTodoHandler r s' = (errorResponse StatusNotFound None, s') ∧
        ∀ r' members,
          RespBody (getTodosHandler r' s').1 = JsonDoc (JObject members) →
          Itoa id ∉ members.*1).
Proof.
  intros [todo Hin] s'. subst s'.
  assert (HD : Delete id s =
               (true, {| todos := delete id (todos s); nextID := nextID s |})).
  { unfold Delete. by rewrite Hin. }
  rewrite HD. simpl.
  set (s' := {| todos := delete id (todos s); nextID := nextID s |}).
  assert (Hgone : todos s' !! id = None) by apply lookup_delete_eq.
  split; [done|]. split; [done|]. split; [done|].
  split; [intros k Hk; by apply lookup_delete_ne|].
  split; [done|].
  split; [by apply Delete_absent|].
  intros r Hm Hid.
  assert (Hne : Get (Query r) "id" ≠ "").
  { intros He. rewrite He, Atoi_empty in Hid. discriminate. }
  split; [|split].
  - unfold deleteTodoHandler.
    pass_guard Hm.
    rewrite bool_decide_eq_false_2 by done. by rewrite Hid, HD.
  - unfold deleteTodoHandler.
    pass_guard Hm.
    rewrite bool_decide_eq_false_2 by done.
    by rewrite Hid, (Delete_absent _ _ Hgone).
  - intros r' members Hp.
    change (JsonDoc (encodeTodos (todos s')) = JsonDoc (JObject members)) in Hp.
    destruct (encodeTodos_members (todos s')) as (ms & Hms & Hiff & _).
    rewrite Hms in Hp. injection Hp as <-.
    intros Hk. apply list_elem_of_fmap in Hk as [[key v] [Hkey Hkv]].
    simpl in Hkey. subst key.
    apply Hiff in Hkv as (k & t & Hlk & Hik & _).
    apply Itoa_inj in Hik as <-. congruence.
Qed.

Lemma Delete_frame_witness :
  let s := (Create "walk dog" (Create "buy milk" initStore).2).2 in
  is_Some (todos s !! 1) ∧
  todos (Delete 1 s).2 = delete 1 (todos s) ∧
  nextID (Delete 1 s).2 = 3.
Proof.
  intros s.
  assert (H : is_Some (todos s !! 1)) by (eexists; reflexivity).
  split; [exact H|].
  destruct (Delete_frame s 1 H) as (_ & Ht & Hn & _).
  split; [exact Ht|]. rewrite Hn. reflexivity.
Defined.

(** ** Listing *)

(** C7: the handler of /todos never looks at the method: for every request
    it answers 200 with one JSON object that has exactly one member per entry
    of the map, keyed by the decimal text of the id and holding that todo's
    JSON object; the store is left as it was, and an empty map is written as
    the object without members. *)
Theorem getTodos_any_method (r : Request) (s : Store) :
  Status (getTodosHandler r s).1 = StatusOK ∧
  ContentType (getTodosHandler r s).1 = Some applicationJSON ∧
  (getTodosHandler r s).2 = s ∧
  (∃ members,
      RespBody (getTodosHandler r s).1 = JsonDoc (JObject members) ∧
      (∀ key v, (key, v) ∈ members ↔
                ∃ id t, todos s !! id = Some t ∧ key = Itoa id ∧ v = encodeTodo t) ∧
      NoDup members.*1) ∧
  RespBody (getTodosHandler r {| todos := ∅; nextID := nextID s |}).1
    = JsonDoc (JObject []) ∧
  serve {| Method := Method r; Path := "/todos"; Query := Query r; Body := Body r |} s
    = getTodosHandler r s.
Proof.
  split; [done|]. split; [done|]. split; [done|]. split; [|split; [done|]].
  - destruct (encodeTodos_members (todos s)) as (ms & Hms & Hiff & Hnd).
    exists ms. split; [|done].
    change (JsonDoc (encodeTodos (todos s)) = JsonDoc (JObject ms)).
    by rewrite Hms.
  - reflexivity.
Qed.

(** ** Runs of operations *)

Lemma runFrom_app t ops more :
  runFrom t (ops ++ more) = runFrom (runFrom t ops) more.
Proof. apply foldl_app. Qed.

Lemma run_app ops more : run (ops ++ more) = runFrom (run ops) more.
Proof. apply runFrom_app. Qed.

Lemma run_snoc ops op : run (ops ++ [op]) = tstep (run ops) op.
Proof. apply foldl_snoc. Qed.

Lemma creates_snoc ops op :
  creates (ops ++ [op]) = creates ops + (if isCreate op then 1 else 0).
Proof.
  unfold creates. rewrite filter_app, length_app.
  rewrite filter_cons, filter_nil. destruct op; simpl; lia.
Qed.

Lemma creates_nonneg ops : 0 ≤ creates ops.
Proof. unfold creates. lia. Qed.

Lemma creates_app ops more : creates (ops ++ more) = creates ops + creates more.
Proof. unfold creates. rewrite filter_app, length_app. lia. Qed.

Lemma exec_nextID_not_create op s :
  isCreate op = false → nextID (exec op s) = nextID s.
Proof.
  destruct op; simpl; try done; intros _.
  - apply MarkDone_nextID.
  - apply Delete_nextID.
Qed.

Lemma exec_keys_not_create op s k :
  isCreate op = false →
  is_Some (todos (exec op s) !! k) → is_Some (todos s !! k).
Proof.
  destruct op as [|title|id|id]; simpl; try done; intros _.
  - unfold MarkDone. destruct (todos s !! id) eqn:Hid; simpl; [|done].
    destruct (decide (id = k)) as [->|Hne].
    + by rewrite Hid.
    + by rewrite lookup_insert_ne.
  - unfold Delete. destruct (todos s !! id) eqn:Hid; simpl; [|done].
    destruct (decide (id = k)) as [->|Hne].
    + rewrite lookup_delete_eq. by intros [? ?].
    + by rewrite lookup_delete_ne.
Qed.

(** While fewer than [maxInt] todos have been created the counter has not
    wrapped: it is one more than the number of Creates, and keys and issued
    ids lie below it. *)
Lemma run_belowNext ops :
  creates ops < maxInt →
  nextID (store (run ops)) = 1 + creates ops ∧
  Z.of_nat (length (issued (run ops))) = creates ops ∧
  belowNext (run ops).
Proof.
  induction ops as [|op ops IH] using rev_ind; intros Hc.
  - split; [done|]. split; [done|]. split; [|split].
    + intros k [? Hk].
      change (todos (store (run []))) with (∅ : gmap Z Todo) in Hk.
      by rewrite lookup_empty in Hk.
    + intros id Hid. by apply elem_of_nil in Hid.
    + constructor.
  - rewrite creates_snoc in Hc |- *. rewrite run_snoc.
    pose proof (creates_nonneg ops) as Hnn.
    destruct IH as (Hn & Hlen & Hkeys & Hiss & Hsort);
      [destruct (isCreate op); lia|].
    set (t := run ops) in *. unfold tstep, belowNext. simpl.
    destruct (isCreate op) eqn:Hop.
    + destruct op as [|title| |]; try discriminate. simpl.
      assert (Hw : wrapInt (nextID (store t) + 1) = nextID (store t) + 1).
      { apply wrapInt_succ; [|lia]. unfold isInt.
        rewrite maxInt_val, minInt_val in *. lia. }
      rewrite Hw. split; [lia|]. split; [lia|]. split; [|split].
      * intros k Hk.
        destruct (decide (nextID (store t) = k)) as [<-|Hne]; [lia|].
        rewrite lookup_insert_ne in Hk by done. apply Hkeys in Hk. lia.
      * intros id Hid.
        apply elem_of_cons in Hid as [->|Hid]; [lia|]. apply Hiss in Hid. lia.
      * constructor; [done|]. apply Forall_forall. intros id Hid.
        apply Hiss in Hid. lia.
    + assert (Hi : issuedBy op (store t) = []) by (by destruct op).
      rewrite Hi, (exec_nextID_not_create _ _ Hop). simpl.
      split; [lia|]. split; [lia|]. split; [|split].
      * intros k Hk.
        apply (exec_keys_not_create _ _ _ Hop), Hkeys in Hk. lia.
      * intros id Hid. apply Hiss in Hid. lia.
      * done.
Qed.

Lemma increasing_NoDup ids : increasing ids → NoDup ids.
Proof.
  induction 1 as [|id ids _ IH Hall]; constructor; [|done].
  intros Hin. rewrite Forall_forall in Hall. apply Hall in Hin. lia.
Qed.

(** The store after [n] rounds of create-then-delete that stay inside [int]
    and away from the keys in use: the map is back as it was and the counter
    has advanced by [n]. *)
Lemma store_churns n : ∀ a t,
  nextID (store t) = a → minInt ≤ a → a + Z.of_nat n ≤ maxInt →
  (∀ i, a ≤ i < a + Z.of_nat n → todos (store t) !! i = None) →
  store (runFrom t (churns a n)) =
    {| todos := todos (store t); nextID := a + Z.of_nat n |}.
Proof.
  induction n as [|n IH]; intros a t Ha Hlo Hhi Hfree.
  - simpl. destruct (store t) as [m c]. simpl in *. f_equal. lia.
  - change (churns a (S n)) with (churn a ++ churns (a + 1) n)%list.
    rewrite runFrom_app.
    set (t1 := runFrom t (churn a)).
    assert (Ht1 : store t1 = {| todos := todos (store t); nextID := a + 1 |}).
    { subst t1. unfold runFrom, churn. simpl. unfold Delete. simpl.
      rewrite Ha, lookup_insert_eq. simpl.
      rewrite delete_insert_id by (apply Hfree; lia).
      rewrite wrapInt_succ; [done| |lia].
      unfold isInt. lia. }
    rewrite IH with (a := a + 1).
    + rewrite Ht1. simpl. f_equal. lia.
    + by rewrite Ht1.
    + lia.
    + lia.
    + intros i Hi. rewrite Ht1. simpl. apply Hfree. lia.
Qed.

Lemma to_nat_maxInt_pred : Z.of_nat (Z.to_nat (maxInt - 1)) = maxInt - 1.
Proof. apply Z2Nat.id. rewrite maxInt_val. lia. Qed.

(** ** Issued ids *)

(** C2 (amended): from the fresh store, as long as fewer than [maxInt]
    (2^63 - 1) todos have been created, the ids handed out by the successive
    Creates are strictly increasing and pairwise distinct, there is one per
    Create, [nextID] is above every one of them, a Delete leaves [nextID]
    where it was, and the id the next Create hands out, also right after a
    Delete, was never issued before. *)
Theorem issued_ids_increasing (ops : list Op) :
  creates ops < maxInt →
  let t := run ops in
  increasing (issued t) ∧
  NoDup (issued t) ∧
  Z.of_nat (length (issued t)) = creates ops ∧
  (∀ id, id ∈ issued t → id < nextID (store t)) ∧
  (∀ id, nextID (exec (OpDelete id) (store t)) = nextID (store t)) ∧
  (∀ id title, ID (Create title (exec (OpDelete id) (store t))).1 ∉ issued t).
Proof.
  intros Hc t.
  destruct (run_belowNext ops Hc) as (Hn & Hlen & Hkeys & Hiss & Hsort).
  fold t in Hn, Hlen, Hkeys, Hiss, Hsort.
  split; [done|]. split; [by apply increasing_NoDup|]. split; [done|].
  split; [intros id Hid; apply Hiss in Hid; lia|].
  split; [intros id; apply Delete_nextID|].
  intros id title Hin. rewrite Create_todo in Hin. simpl in Hin.
  rewrite Delete_nextID in Hin. apply Hiss in Hin. lia.
Qed.

Lemma issued_ids_increasing_witness :
  let ops := [OpCreate "a"; OpCreate "b"; OpDelete 2; OpCreate "c"; OpMarkDone 1] in
  creates ops < maxInt ∧
  issued (run ops) = [3; 2; 1] ∧
  increasing (issued (run ops)) ∧
  nextID (store (run ops)) = 4.
Proof.
  intros ops.
  assert (Hc : creates ops < maxInt) by (by vm_compute).
  split; [exact Hc|]. split; [reflexivity|].
  split; [exact (proj1 (issued_ids_increasing ops Hc))|reflexivity].
Defined.

(** One Create at the largest [int], after [n = maxInt - 1] rounds of
    create-then-delete, and one more Create after it. *)
Lemma overflow_after_rounds n :
  Z.of_nat n = maxInt - 1 →
  let ops := (churns 1 n ++ [OpCreate ""])%list in
  let t := run ops in
  maxInt ∈ issued t ∧
  nextID (store t) = minInt ∧
  ¬ (∀ id, id ∈ issued t → id < nextID (store t)) ∧
  (∃ rest, issued (run (ops ++ [OpCreate ""])) = minInt :: maxInt :: rest) ∧
  ¬ increasing (issued (run (ops ++ [OpCreate ""]))).
Proof.
  intros Hn ops t.
  assert (H1 : store (run (churns 1 n)) = {| todos := ∅; nextID := maxInt |}).
  { unfold run. rewrite store_churns.
    - rewrite Hn. f_equal; lia.
    - done.
    - rewrite minInt_val. lia.
    - lia.
    - intros i _. apply lookup_empty. }
  assert (Hi : issued t = maxInt :: issued (run (churns 1 n))).
  { subst t ops. rewrite run_snoc. unfold tstep, issuedBy.
    by rewrite Create_todo, H1. }
  assert (Hnext : nextID (store t) = minInt).
  { subst t ops. rewrite run_snoc. unfold tstep, exec.
    cbn [store]. by rewrite Create_nextID, H1. }
  assert (Hin : maxInt ∈ issued t) by (rewrite Hi; apply elem_of_cons; by left).
  assert (Hi2 : issued (run (ops ++ [OpCreate ""])) = minInt :: issued t).
  { rewrite run_snoc. fold t. unfold tstep, issuedBy.
    cbn [issued]. by rewrite Create_todo, Hnext. }
  split; [done|]. split; [done|]. split; [|split].
  - intros Hall. apply Hall in Hin. rewrite Hnext, maxInt_val, minInt_val in Hin. lia.
  - eexists. by rewrite Hi2, Hi.
  - rewrite Hi2, Hi. intros Hsorted. inversion Hsorted as [|? ? _ Hall]; subst.
    apply Forall_cons in Hall as [Hlt _].
    rewrite maxInt_val, minInt_val in Hlt. lia.
Qed.

(** C2 as stated fails once the counter reaches the largest [int]: after
    [maxInt - 1] rounds of create-then-delete the next Create hands out
    [maxInt] and [nextID] wraps to [minInt], below an id already issued; the
    Create after that hands out [minInt], smaller than its predecessor. *)
Lemma issued_ids_overflow :
  let ops := (churns 1 (Z.to_nat (maxInt - 1)) ++ [OpCreate ""])%list in
  let t := run ops in
  maxInt ∈ issued t ∧
  nextID (store t) = minInt ∧
  ¬ (∀ id, id ∈ issued t → id < nextID (store t)) ∧
  (∃ rest, issued (run (ops ++ [OpCreate ""])) = minInt :: maxInt :: rest) ∧
  ¬ increasing (issued (run (ops ++ [OpCreate ""]))).
Proof. exact (overflow_after_rounds _ to_nat_maxInt_pred). Qed.

(** ** Done is never reset *)

Lemma store_churn_maxInt t :
  nextID (store t) = maxInt → todos (store t) !! maxInt = None →
  store (runFrom t (churn maxInt)) = {| todos := todos (store t); nextID := minInt |}.
Proof.
  intros Hn Hfree. unfold runFrom, churn. simpl. unfold Delete. simpl.
  rewrite Hn, lookup_insert_eq. simpl.
  by rewrite delete_insert_id, wrapInt_maxInt.
Qed.

(** Wrapping is additive: wrapping an intermediate sum changes nothing. *)
Lemma wrapInt_add a b : wrapInt (wrapInt a + b) = wrapInt (a + b).
Proof.
  unfold wrapInt.
  replace ((a + 2 ^ (intSize - 1)) `mod` 2 ^ intSize - 2 ^ (intSize - 1) + b
           + 2 ^ (intSize - 1))
    with ((a + 2 ^ (intSize - 1)) `mod` 2 ^ intSize + b) by lia.
  rewrite Zplus_mod_idemp_l. f_equal. f_equal. lia.
Qed.

(** Two integers less than [2 ^ intSize] apart wrap to different [int]s. *)
Lemma wrapInt_neq a b : 0 < b - a < 2 ^ intSize → wrapInt a ≠ wrapInt b.
Proof.
  unfold wrapInt. change (2 ^ (intSize - 1)) with 9223372036854775808.
  change (2 ^ intSize) with 18446744073709551616.
  intros Hab Heq.
  pose proof (Z.div_mod (a + 9223372036854775808) 18446744073709551616) as Ha.
  pose proof (Z.div_mod (b + 9223372036854775808) 18446744073709551616) as Hb.
  lia.
Qed.

(** With or without overflow, the counter after a run is the wrapped count of
    its Creates plus one, and every key of the map is the wrapped number of
    one of those Creates. *)
Lemma run_wrapped ops :
  nextID (store (run ops)) = wrapInt (1 + creates ops) ∧
  ∀ k, is_Some (todos (store (run ops)) !! k) →
       ∃ i, 0 ≤ i < creates ops ∧ k = wrapInt (1 + i).
Proof.
  induction ops as [|op ops [IHn IHk]] using rev_ind.
  - split; [done|]. intros k [? Hk].
    change (todos (store (run []))) with (∅ : gmap Z Todo) in Hk.
    by rewrite lookup_empty in Hk.
  - rewrite run_snoc, creates_snoc. unfold tstep. cbn [store].
    pose proof (creates_nonneg ops) as Hnn.
    destruct (isCreate op) eqn:Hop.
    + destruct op as [|title| |]; try discriminate. cbn [exec]. split.
      * rewrite Create_nextID, IHn, wrapInt_add. f_equal. lia.
      * intros k Hk. rewrite Create_todos in Hk.
        destruct (decide (nextID (store (run ops)) = k)) as [<-|Hne].
        -- exists (creates ops). split; [lia|done].
        -- rewrite lookup_insert_ne in Hk by done.
           destruct (IHk k Hk) as (i & Hi & ->). exists i. split; [lia|done].
    + split.
      * rewrite exec_nextID_not_create by done. rewrite IHn. f_equal. lia.
      * intros k Hk. apply (exec_keys_not_create op) in Hk; [|done].
        destruct (IHk k Hk) as (i & Hi & ->). exists i. split; [lia|done].
Qed.

(** C5 (amended): from the fresh store, as long as at most [2 ^ intSize]
    (2^64) todos are created in all, a todo seen with [done = true] under
    some id is seen with [done = true] under that id after any further
    operations, unless one of them was the Delete of that id.  The bound is
    the number of Creates it takes the wrapping counter to come back to an
    id it has issued. *)
Theorem done_never_reverts (ops more : list Op) (k : Z) (t : Todo) :
  creates (ops ++ more) ≤ 2 ^ intSize →
  todos (store (run ops)) !! k = Some t → Done t = true →
  match todos (store (run (ops ++ more))) !! k with
  | Some t' => Done t' = true
  | None => OpDelete k ∈ more
  end.
Proof.
  intros Hc Hk Hdone.
  induction more as [|op more IH] using rev_ind.
  - rewrite app_nil_r, Hk. done.
  - rewrite app_assoc, creates_snoc in Hc.
    rewrite app_assoc, run_snoc. unfold tstep. simpl.
    set (s := store (run (ops ++ more))) in *.
    assert (Hstep : todos (exec op s) !! k = todos s !! k ∨
                    (∃ t', todos (exec op s) !! k = Some t' ∧ Done t' = true) ∨
                    (todos (exec op s) !! k = None ∧ op = OpDelete k)).
    { destruct op as [|title|id|id]; simpl.
      - by left.
      - left. simpl in Hc. rewrite creates_app in Hc.
        pose proof (creates_nonneg more). pose proof (creates_nonneg ops).
        destruct (run_wrapped ops) as [_ Hkeys0].
        destruct (Hkeys0 k) as (i & Hi & ->); [by rewrite Hk|].
        destruct (run_wrapped (ops ++ more)) as [Hn _].
        fold s in Hn. rewrite creates_app in Hn.
        apply lookup_insert_ne. rewrite Hn.
        apply not_eq_sym, wrapInt_neq. lia.
      - unfold MarkDone. destruct (todos s !! id) as [u|] eqn:Hid; simpl; [|by left].
        destruct (decide (id = k)) as [->|Hne].
        + right. left. eexists. by rewrite lookup_insert_eq.
        + left. by apply lookup_insert_ne.
      - unfold Delete. destruct (todos s !! id) as [u|] eqn:Hid; simpl; [|by left].
        destruct (decide (id = k)) as [->|Hne].
        + right. right. by rewrite lookup_delete_eq.
        + left. by apply lookup_delete_ne. }
    destruct Hstep as [Heq|[(t' & Heq & Ht')|[Heq ->]]].
    + rewrite Heq.
      assert (Hc' : creates (ops ++ more) ≤ 2 ^ intSize)
        by (destruct (isCreate op); lia).
      specialize (IH Hc'). destruct (todos s !! k); [done|].
      apply elem_of_app. by left.
    + by rewrite Heq.
    + rewrite Heq. apply elem_of_app. right. by apply list_elem_of_singleton.
Qed.

Lemma done_never_reverts_witness :
  let ops := [OpCreate "a"; OpMarkDone 1] in
  let more := [OpCreate "b"; OpList; OpDelete 2; OpMarkDone 1] in
  creates (ops ++ more) ≤ 2 ^ intSize ∧
  todos (store (run ops)) !! 1 = Some {| ID := 1; Title := "a"; Done := true |} ∧
  match todos (store (run (ops ++ more))) !! 1 with
  | Some t' => Done t' = true
  | None => OpDelete 1 ∈ more
  end.
Proof.
  intros ops more.
  assert (Hc : creates (ops ++ more) ≤ 2 ^ intSize) by (by vm_compute).
  assert (Hk : todos (store (run ops)) !! 1 = Some {| ID := 1; Title := "a"; Done := true |})
    by reflexivity.
  split; [exact Hc|]. split; [exact Hk|].
  exact (done_never_reverts ops more 1 _ Hc Hk eq_refl).
Defined.

Lemma to_nat_maxInt_pred2 : Z.of_nat (Z.to_nat (maxInt - 2)) = maxInt - 2.
Proof. apply Z2Nat.id. rewrite maxInt_val. lia. Qed.

Lemma to_nat_minInt_span : Z.of_nat (Z.to_nat (1 - minInt)) = 1 - minInt.
Proof. apply Z2Nat.id. rewrite minInt_val. lia. Qed.

(** Todo 1 created and marked done, then [n1 = maxInt - 2] rounds up to the
    largest [int], the round that wraps, and [n2 = 1 - minInt] rounds back up
    to 1. *)
Lemma wraparound_rounds n1 n2 :
  Z.of_nat n1 = maxInt - 2 → Z.of_nat n2 = 1 - minInt →
  let ops := ([OpCreate "a"; OpMarkDone 1] ++ churns 2 n1
              ++ churn maxInt ++ churns minInt n2)%list in
  let s := store (run ops) in
  reachable s ∧
  todos s !! 1 = Some {| ID := 1; Title := "a"; Done := true |} ∧
  todos (exec (OpCreate "b") s) !! 1 = Some {| ID := 1; Title := "b"; Done := false |}.
Proof.
  intros Hn1 Hn2 ops s.
  set (m := {[1 := {| ID := 1; Title := "a"; Done := true |}]} : gmap Z Todo).
  assert (Hs : s = {| todos := m; nextID := 1 |}).
  { subst s ops. rewrite run_app, !runFrom_app.
    set (t0 := run [OpCreate "a"; OpMarkDone 1]).
    assert (H0 : store t0 = {| todos := m; nextID := 2 |}) by reflexivity.
    set (t1 := runFrom t0 (churns 2 n1)).
    assert (H1 : store t1 = {| todos := m; nextID := maxInt |}).
    { subst t1. rewrite store_churns.
      - rewrite Hn1, H0. simpl. f_equal; lia.
      - by rewrite H0.
      - rewrite minInt_val. lia.
      - lia.
      - intros i Hi. rewrite H0. simpl. apply lookup_singleton_ne. lia. }
    set (t2 := runFrom t1 (churn maxInt)).
    assert (H2 : store t2 = {| todos := m; nextID := minInt |}).
    { subst t2. rewrite store_churn_maxInt; rewrite H1; done. }
    rewrite store_churns.
    - rewrite Hn2, H2. simpl. f_equal; lia.
    - by rewrite H2.
    - lia.
    - rewrite Hn2, maxInt_val. lia.
    - intros i Hi. rewrite H2. simpl. apply lookup_singleton_ne. lia. }
  split; [by exists ops|]. rewrite Hs. split; reflexivity.
Qed.

(** C5 as stated fails after the counter has gone once around [int]: with
    todo 1 created and marked done, [maxInt - 2] rounds of create-then-delete
    bring [nextID] to [maxInt], one more wraps it to [minInt], and
    [1 - minInt] further rounds bring it back to 1; the next Create then
    stores a todo with [done = false] over the entry of id 1. *)
Lemma done_reverts_after_wraparound :
  let ops := ([OpCreate "a"; OpMarkDone 1] ++ churns 2 (Z.to_nat (maxInt - 2))
              ++ churn maxInt ++ churns minInt (Z.to_nat (1 - minInt)))%list in
  let s := store (run ops) in
  reachable s ∧
  todos s !! 1 = Some {| ID := 1; Title := "a"; Done := true |} ∧
  todos (exec (OpCreate "b") s) !! 1 = Some {| ID := 1; Title := "b"; Done := false |}.
Proof. exact (wraparound_rounds _ _ to_nat_maxInt_pred2 to_nat_minInt_span). Qed.

Lemma creates_churns n : ∀ a, creates (churns a n) = Z.of_nat n.
Proof.
  induction n as [|n IH]; intros a; [done|].
  change (churns a (S n)) with (churn a ++ churns (a + 1) n)%list.
  rewrite creates_app, IH. change (creates (churn a)) with 1. lia.
Qed.

Lemma wraparound_rounds_creates n1 n2 :
  Z.of_nat n1 = maxInt - 2 → Z.of_nat n2 = 1 - minInt →
  creates ([OpCreate "a"; OpMarkDone 1] ++ churns 2 n1
           ++ churn maxInt ++ churns minInt n2) = 2 ^ intSize.
Proof.
  intros Hn1 Hn2. rewrite !creates_app, !creates_churns, Hn1, Hn2.
  change (creates [OpCreate "a"; OpMarkDone 1]) with 1.
  change (creates (churn maxInt)) with 1.
  rewrite maxInt_val, minInt_val. reflexivity.
Qed.

(** The run after which Create overwrites the done todo holds exactly
    [2 ^ intSize] Creates: the overwriting Create is the first one past the
    bound of C5. *)
Lemma wraparound_takes_all_ids :
  creates ([OpCreate "a"; OpMarkDone 1] ++ churns 2 (Z.to_nat (maxInt - 2))
           ++ churn maxInt ++ churns minInt (Z.to_nat (1 - minInt))) = 2 ^ intSize.
Proof. exact (wraparound_rounds_creates _ _ to_nat_maxInt_pred2 to_nat_minInt_span). Qed.

(** ** Requests and operations *)

(** Whatever the request, a handler either leaves the store alone or runs
    exactly one store operation on it. *)
Lemma serve_exec r s : (serve r s).2 = s ∨ ∃ op, (serve r s).2 = exec op s.
Proof.
  unfold serve. repeat case_bool_decide.
  - by left.
  - unfold createTodoHandler. case_bool_decide; [by left|].
    destruct (decodeCreateTodoRequest (Body r)) as [req|]; [|by left].
    right. by exists (OpCreate (reqTitle req)).
  - unfold updateTodoHandler. repeat case_bool_decide; try by left.
    destruct (Atoi (Get (Query r) "id")) as [id|]; [|by left].
    right. exists (OpMarkDone id). simpl. by destruct (MarkDone id s) as [[?|] ?].
  - unfold deleteTodoHandler. repeat case_bool_decide; try by left.
    destruct (Atoi (Get (Query r) "id")) as [id|]; [|by left].
    right. exists (OpDelete id). simpl. by destruct (Delete id s) as [[|] ?].
  - by left.
Qed.

Lemma reachable_exec op s : reachable s → reachable (exec op s).
Proof. intros [ops ->]. exists (ops ++ [op])%list. by rewrite run_snoc. Qed.

Lemma reachable_serve r s : reachable s → reachable (serve r s).2.
Proof.
  intros Hs. destruct (serve_exec r s) as [->|[op ->]]; [done|].
  by apply reachable_exec.
Qed.

(** ** Key coherence *)

Lemma coherent_exec op s : coherent s → coherent (exec op s).
Proof.
  intros Hs k t. destruct op as [|title|id|id]; simpl.
  - apply Hs.
  - destruct (decide (nextID s = k)) as [<-|Hne].
    + rewrite lookup_insert_eq. by intros [= <-].
    + rewrite lookup_insert_ne by done. apply Hs.
  - unfold MarkDone. destruct (todos s !! id) as [u|] eqn:Hid; simpl; [|apply Hs].
    destruct (decide (id = k)) as [->|Hne].
    + rewrite lookup_insert_eq. intros [= <-]. simpl. by apply Hs.
    + rewrite lookup_insert_ne by done. apply Hs.
  - unfold Delete. destruct (todos s !! id) as [u|] eqn:Hid; simpl; [|apply Hs].
    intros Hk. apply lookup_delete_Some in Hk as [_ Hk]. by apply Hs.
Qed.

(** C10: every entry of the map carries its own key as [ID].  This holds in
    the fresh store, is kept by each of the four operations and by every
    request served, and so holds in every reachable store. *)
Theorem key_coherence :
  coherent initStore ∧
  (∀ s title, coherent s → coherent (Create title s).2) ∧
  (∀ s id, coherent s → coherent (MarkDone id s).2) ∧
  (∀ s id, coherent s → coherent (Delete id s).2) ∧
  (∀ s, coherent s → coherent (ListAll s).2) ∧
  (∀ s r, coherent s → coherent (serve r s).2) ∧
  (∀ s, reachable s → coherent s).
Proof.
  assert (H0 : coherent initStore).
  { intros k t Hk. change (todos initStore) with (∅ : gmap Z Todo) in Hk.
    by rewrite lookup_empty in Hk. }
  split; [done|].
  split; [intros s title; apply (coherent_exec (OpCreate title))|].
  split; [intros s id; apply (coherent_exec (OpMarkDone id))|].
  split; [intros s id; apply (coherent_exec (OpDelete id))|].
  split; [intros s; apply (coherent_exec OpList)|].
  split.
  - intros s r Hs. destruct (serve_exec r s) as [->|[op ->]]; [done|].
    by apply coherent_exec.
  - intros s [ops ->]. induction ops as [|op ops IH] using rev_ind; [done|].
    rewrite run_snoc. by apply coherent_exec.
Qed.

Lemma key_coherence_witness :
  let s := store (run [OpCreate "a"; OpCreate "b"; OpMarkDone 2; OpDelete 1]) in
  reachable s ∧ coherent s ∧
  todos s !! 2 = Some {| ID := 2; Title := "b"; Done := true |}.
Proof.
  intros s.
  assert (Hr : reachable s) by (by eexists).
  split; [exact Hr|]. split; [|reflexivity].
  destruct key_coherence as (_ & _ & _ & _ & _ & _ & Hreach).
  exact (Hreach s Hr).
Defined.

(** ** Method guards *)

(** X1: the three handlers that check [r.Method] answer a request with any other
    method with 405 and no body, and do not touch the store. *)
Lemma guarded_handlers_405 r s :
  (Method r ≠ MethodPost →
     createTodoHandler r s = (errorResponse StatusMethodNotAllowed None, s)) ∧
  (Method r ≠ MethodPut →
     updateTodoHandler r s = (errorResponse StatusMethodNotAllowed None, s)) ∧
  (Method r ≠ MethodDelete →
     deleteTodoHandler r s = (errorResponse StatusMethodNotAllowed None, s)).
Proof.
  split; [|split]; intros Hm.
  - unfold createTodoHandler. by rewrite bool_decide_eq_true_2.
  - unfold updateTodoHandler. by rewrite bool_decide_eq_true_2.
  - unfold deleteTodoHandler. by rewrite bool_decide_eq_true_2.
Qed.

(** C8 at /todos: [getTodosHandler] has no method check, so a POST to /todos
    is not answered with 405: it reads the map and answers 200 with the list. *)
Theorem getTodos_wrong_method_not_405 :
  let s := (Create "buy milk" initStore).2 in
  let r := {| Method := "POST"; Path := "/todos"; Query := ∅; Body := None |} in
  Method r ≠ MethodGet ∧
  Status (serve r s).1 = StatusOK ∧
  Status (serve r s).1 ≠ StatusMethodNotAllowed ∧
  RespBody (serve r s).1 =
    JsonDoc (JObject [("1", encodeTodo {| ID := 1; Title := "buy milk"; Done := false |})]).
Proof. repeat split; done. Qed.

(** * Further properties of the handlers *)

Lemma guarded_handlers_405_witness :
  let r := {| Method := "GET"; Path := "/todos/create"; Query := {["id" := ["1"]]};
              Body := Some (JObject [("title", JString "x")]) |} in
  let s := (Create "buy milk" initStore).2 in
  createTodoHandler r s = (errorResponse 405 None, s) ∧
  updateTodoHandler r s = (errorResponse 405 None, s) ∧
  deleteTodoHandler r s = (errorResponse 405 None, s).
Proof.
  intros r s. destruct (guarded_handlers_405 r s) as (Hc & Hu & Hd).
  split; [|split]; [apply Hc | apply Hu | apply Hd]; discriminate.
Defined.

(** ** Request bodies of /todos/create *)

Lemma decodeMembers_None ms : ∀ req,
  decodeMembers ms req = None ↔ Exists (λ kv, badMember kv = true) ms.
Proof.
  induction ms as [|[k v] ms IH]; intros req; simpl.
  - split; [done|]. intros H. by apply Exists_nil in H.
  - rewrite Exists_cons. unfold badMember at 1. simpl.
    destruct (matchesField "title" k); simpl.
    + destruct v; simpl; rewrite ?IH; intuition congruence.
    + rewrite IH. intuition congruence.
Qed.

(** X2: a POST whose body does not decode is answered 400 without a body and the
    store is not touched.  The body does not decode exactly when no JSON value
    can be read, when the value is neither an object nor [null], or when some
    member named [title] (in any letter case) holds something other than a
    string or [null], wherever it stands in the object. *)
Theorem create_bad_body (r : Request) (s : Store) :
  Method r = MethodPost →
  (decodeCreateTodoRequest (Body r) = None ↔
     match Body r with
     | None => True
     | Some JNull => False
     | Some (JObject ms) => Exists (λ kv, badMember kv = true) ms
     | Some _ => True
     end) ∧
  (decodeCreateTodoRequest (Body r) = None →
     createTodoHandler r s =
       (errorResponse StatusBadRequest (Some applicationJSON), s)).
Proof.
  intros Hm. split.
  - destruct (Body r) as [[| | | | |ms]|]; simpl; try done.
    apply decodeMembers_None.
  - intros Hd. unfold createTodoHandler. pass_guard Hm. by rewrite Hd.
Qed.

Lemma create_bad_body_witness :
  let s := (Create "buy milk" initStore).2 in
  let post b := {| Method := "POST"; Path := "/todos/create"; Query := ∅; Body := b |} in
  createTodoHandler (post None) s = (errorResponse 400 (Some applicationJSON), s) ∧
  createTodoHandler (post (Some (JArray []))) s = (errorResponse 400 (Some applicationJSON), s) ∧
  createTodoHandler (post (Some (JObject [("title", JString "a"); ("Title", JNumber "5")]))) s
    = (errorResponse 400 (Some applicationJSON), s).
Proof.
  intros s post.
  split; [|split].
  - apply (create_bad_body (post None) s); reflexivity.
  - apply (create_bad_body (post (Some (JArray []))) s); reflexivity.
  - apply (create_bad_body
             (post (Some (JObject [("title", JString "a"); ("Title", JNumber "5")]))) s);
      reflexivity.
Defined.

Lemma decodeMembers_title ms : ∀ req req',
  decodeMembers ms req = Some req' →
  (reqTitle req' = reqTitle req ∧
   Forall (λ kv, matchesField "title" kv.1 = true → kv.2 = JNull) ms) ∨
  (∃ k, (k, JString (reqTitle req')) ∈ ms ∧ matchesField "title" k = true).
Proof.
  induction ms as [|[k v] ms IH]; intros req req'; simpl.
  - intros [= <-]. left. split; [done|constructor].
  - destruct (matchesField "title" k) eqn:Hk.
    + destruct v as [| | |t| |]; try done; intros Hd; apply IH in Hd.
      * destruct Hd as [[Ht Hall]|(k' & Hin & Hk')].
        -- left. split; [done|]. by constructor.
        -- right. exists k'. split; [by apply elem_of_cons; right|done].
      * destruct Hd as [[Ht Hall]|(k' & Hin & Hk')].
        -- right. exists k. simpl in Ht. rewrite Ht.
           split; [by apply elem_of_cons; left|done].
        -- right. exists k'. split; [by apply elem_of_cons; right|done].
    + intros Hd. apply IH in Hd.
      destruct Hd as [[Ht Hall]|(k' & Hin & Hk')].
      * left. split; [done|]. constructor; [|done]. simpl. by rewrite Hk.
      * right. exists k'. split; [by apply elem_of_cons; right|done].
Qed.

(** X3: the title a POST stores is never invented: when the body decodes, the
    todo created carries either a string the body holds under a key equal to
    [title] up to letter case, or the empty title when every such member is
    [null] or there is none; the answer is 200 with that todo, stored under
    the current [nextID]. *)
Theorem create_title_from_body (r : Request) (s : Store) (req : CreateTodoRequest) :
  Method r = MethodPost →
  decodeCreateTodoRequest (Body r) = Some req →
  createTodoHandler r s =
    ({| Status := StatusOK; ContentType := Some applicationJSON;
        RespBody := JsonDoc (encodeTodo {| ID := nextID s; Title := reqTitle req;
                                           Done := false |}) |},
     (Create (reqTitle req) s).2) ∧
  match Body r with
  | Some (JObject ms) =>
      (reqTitle req = "" ∧
       Forall (λ kv, matchesField "title" kv.1 = true → kv.2 = JNull) ms) ∨
      (∃ k, (k, JString (reqTitle req)) ∈ ms ∧ matchesField "title" k = true)
  | _ => reqTitle req = ""
  end.
Proof.
  intros Hm Hd. split.
  - unfold createTodoHandler. pass_guard Hm. by rewrite Hd.
  - destruct (Body r) as [[| | | | |ms]|]; simpl in Hd; try done.
    + by injection Hd as <-.
    + by apply decodeMembers_title in Hd.
Qed.

Lemma create_title_from_body_witness :
  let r := {| Method := "POST"; Path := "/todos/create"; Query := ∅;
              Body := Some (JObject [("note", JBool true); ("TITLE", JString "a");
                                     ("title", JNull)]) |} in
  (createTodoHandler r initStore).2 =
    {| todos := {[1 := {| ID := 1; Title := "a"; Done := false |}]}; nextID := 2 |}.
Proof.
  intros r.
  destruct (create_title_from_body r initStore {| reqTitle := "a" |}) as [H _];
    [reflexivity|reflexivity|].
  rewrite H. reflexivity.
Defined.

(** ** MarkDone on its own *)

(** X4: on an id present in the map MarkDone changes nothing but the [done] flag
    of that entry: the todo returned has the stored id and title, every other
    entry, the key set and [nextID] are as before, and when the todo was done
    already the whole store is as before. *)
Theorem MarkDone_frame (s : Store) (id : Z) (t : Todo) :
  todos s !! id = Some t →
  (MarkDone id s).1 = Some {| ID := ID t; Title := Title t; Done := true |} ∧
  todos (MarkDone id s).2 !! id = (MarkDone id s).1 ∧
  (∀ k, k ≠ id → todos (MarkDone id s).2 !! k = todos s !! k) ∧
  dom (todos (MarkDone id s).2) = dom (todos s) ∧
  nextID (MarkDone id s).2 = nextID s ∧
  (Done t = true → (MarkDone id s).2 = s).
Proof.
  intros Hin. rewrite (MarkDone_present _ _ _ Hin). simpl.
  split; [done|]. split; [apply lookup_insert_eq|].
  split; [intros k Hk; by apply lookup_insert_ne|].
  split; [by apply dom_insert_lookup_L|]. split; [done|].
  intros Hd. destruct s as [m n]. simpl in *. f_equal.
  apply insert_id. rewrite Hin. f_equal. destruct t; simpl in *. by subst.
Qed.

Lemma MarkDone_frame_witness :
  let s := (Create "walk dog" (Create "buy milk" initStore).2).2 in
  (MarkDone 2 s).1 = Some {| ID := 2; Title := "walk dog"; Done := true |} ∧
  todos (MarkDone 2 s).2 !! 1 = Some {| ID := 1; Title := "buy milk"; Done := false |}.
Proof.
  intros s.
  destruct (MarkDone_frame s 2 {| ID := 2; Title := "walk dog"; Done := false |})
    as (Hr & _ & Hothers & _); [reflexivity|].
  split; [exact Hr|]. rewrite Hothers; [reflexivity|discriminate].
Defined.

(** ** What every response looks like *)

(** Splits [serve r s] into the outcomes of the route table and of the
    handler reached. *)
Ltac serve_cases r s :=
  unfold serve, getTodosHandler, createTodoHandler, updateTodoHandler,
    deleteTodoHandler, MarkDone, Delete, Create, ListAll;
  repeat case_bool_decide;
  try match goal with
      | |- context [decodeCreateTodoRequest (Body r)] =>
          destruct (decodeCreateTodoRequest (Body r))
      end;
  try match goal with
      | |- context [Atoi (Get (Query r) "id")] =>
          destruct (Atoi (Get (Query r) "id")) as [?id|]
      end;
  try match goal with |- context [todos s !! ?i] => destruct (todos s !! i) end;
  simpl.

(** X5: whatever request one of the four handlers is given, its status is
    200 for the list, one of 200, 400, 405 for create, one of 200, 400, 404,
    405 for update and one of 204, 400, 404, 405 for delete; a JSON document
    is written exactly when the status is 200, and then with the JSON content
    type; every other answer has no body at all. *)
Theorem response_shape (r : Request) (s : Store) :
  Forall (λ '(handler, allowed),
            let a : Response := (handler r s).1 in
            Status a ∈ allowed ∧
            match RespBody a with
            | JsonDoc _ =>
                Status a = StatusOK ∧ ContentType a = Some applicationJSON
            | Empty => Status a ≠ StatusOK
            | Text _ => False
            end)
    [(getTodosHandler, [StatusOK]);
     (createTodoHandler,
      [StatusOK; StatusBadRequest; StatusMethodNotAllowed]);
     (updateTodoHandler,
      [StatusOK; StatusBadRequest; StatusNotFound; StatusMethodNotAllowed]);
     (deleteTodoHandler,
      [StatusNoContent; StatusBadRequest; StatusNotFound; StatusMethodNotAllowed])].
Proof.
  rewrite !Forall_cons, Forall_nil. cbn zeta.
  repeat split; serve_cases r s;
    try (rewrite !elem_of_cons; auto 10); done.
Qed.

(** ** Which requests write *)

(** X6: the store is written by three kinds of request only: a POST to
    /todos/create answered 200, a PUT to /todos/update answered 200 and a
    DELETE to /todos/delete answered 204.  Every other request, and every
    request answered with an error status, leaves the map and [nextID] as
    they were; [nextID] moves only on a POST answered 200. *)
Theorem writes_only_on_success (r : Request) (s : Store) :
  ((serve r s).2 ≠ s →
     (Path r = "/todos/create" ∧ Method r = MethodPost ∧
      Status (serve r s).1 = StatusOK) ∨
     (Path r = "/todos/update" ∧ Method r = MethodPut ∧
      Status (serve r s).1 = StatusOK) ∨
     (Path r = "/todos/delete" ∧ Method r = MethodDelete ∧
      Status (serve r s).1 = StatusNoContent)) ∧
  (nextID (serve r s).2 ≠ nextID s →
     Path r = "/todos/create" ∧ Method r = MethodPost ∧
     Status (serve r s).1 = StatusOK ∧
     nextID (serve r s).2 = wrapInt (nextID s + 1)).
Proof.
  serve_cases r s; split; intros Hneq; try done.
  - by left.
  - right. by left.
  - right. by right.
Qed.

Lemma writes_only_on_success_witness :
  let s := (Create "buy milk" initStore).2 in
  let r := {| Method := "POST"; Path := "/todos/create"; Query := ∅;
              Body := Some (JObject [("title", JString "walk dog")]) |} in
  (serve r s).2 ≠ s ∧ Status (serve r s).1 = StatusOK ∧
  nextID (serve r s).2 = wrapInt (nextID s + 1).
Proof.
  intros s r.
  assert (Hn : nextID (serve r s).2 ≠ nextID s) by discriminate.
  assert (Hs : (serve r s).2 ≠ s) by (intros He; apply Hn; by rewrite He).
  destruct (writes_only_on_success r s) as [_ H2].
  destruct (H2 Hn) as (_ & _ & Hst & Hnext).
  split; [exact Hs|]. split; [exact Hst|exact Hnext].
Defined.

(** * Further properties of runs *)

Lemma exec_lookup op s k :
  todos (exec op s) !! k = todos s !! k ∨
  (∃ title, op = OpCreate title ∧ k = nextID s) ∨
  (op = OpMarkDone k ∧
   ∃ t, todos s !! k = Some t ∧
        todos (exec op s) !! k = Some {| ID := ID t; Title := Title t; Done := true |}) ∨
  (op = OpDelete k ∧ todos (exec op s) !! k = None).
Proof.
  destruct op as [|title|id|id]; simpl.
  - by left.
  - destruct (decide (nextID s = k)) as [<-|Hne].
    + right. left. by exists title.
    + left. by apply lookup_insert_ne.
  - unfold MarkDone. destruct (todos s !! id) as [u|] eqn:Hid; simpl; [|by left].
    destruct (decide (id = k)) as [->|Hne].
    + right. right. left. split; [done|]. exists u.
      split; [done|]. apply lookup_insert_eq.
    + left. by apply lookup_insert_ne.
  - unfold Delete. destruct (todos s !! id) as [u|] eqn:Hid; simpl; [|by left].
    destruct (decide (id = k)) as [->|Hne].
    + right. right. right. split; [done|]. apply lookup_delete_eq.
    + left. by apply lookup_delete_ne.
Qed.

(** Without overflow the counter is past every id it stood above earlier. *)
Lemma nextID_above ops more k :
  creates (ops ++ more) < maxInt →
  k < nextID (store (run ops)) →
  k ≠ nextID (store (run (ops ++ more))).
Proof.
  intros Hc Hk. pose proof (creates_nonneg more). pose proof (creates_nonneg ops).
  rewrite creates_app in Hc.
  destruct (run_belowNext ops) as [Hn _]; [lia|].
  destruct (run_belowNext (ops ++ more)) as [Hn' _]; [rewrite creates_app; lia|].
  rewrite creates_app in Hn'. lia.
Qed.

Lemma keys_issued ops k :
  is_Some (todos (store (run ops)) !! k) → k ∈ issued (run ops).
Proof.
  induction ops as [|op ops IH] using rev_ind.
  - intros [? Hk]. change (todos (store (run []))) with (∅ : gmap Z Todo) in Hk.
    by rewrite lookup_empty in Hk.
  - rewrite run_snoc. unfold tstep. cbn [store issued]. intros Hk.
    destruct (isCreate op) eqn:Hop.
    + destruct op as [|title| |]; try discriminate.
      cbn [exec issuedBy] in *. rewrite Create_todos in Hk.
      rewrite Create_todo. cbn [ID]. apply elem_of_app.
      destruct (decide (nextID (store (run ops)) = k)) as [<-|Hne].
      * left. by apply list_elem_of_singleton.
      * right. apply IH. by rewrite lookup_insert_ne in Hk.
    + apply elem_of_app. right. apply IH.
      by apply (exec_keys_not_create op).
Qed.

(** X7: an id that no Create has handed out is not a key of the map, so MarkDone
    and Delete fail on it and the update and delete handlers answer 404
    without touching the store. *)
Theorem never_issued_not_found (ops : list Op) (id : Z) :
  id ∉ issued (run ops) →
  let s := store (run ops) in
  todos s !! id = None ∧
  MarkDone id s = (None, s) ∧
  Delete id s = (false, s) ∧
  (∀ r, Atoi (Get (Query r) "id") = Some id →
        (Method r = MethodPut →
           updateTodoHandler r s = (errorResponse StatusNotFound (Some applicationJSON), s)) ∧
        (Method r = MethodDelete →
           deleteTodoHandler r s = (errorResponse StatusNotFound None, s))).
Proof.
  intros Hid s.
  assert (Hnone : todos s !! id = None).
  { apply eq_None_not_Some. intros Hk. by apply Hid, keys_issued. }
  split; [done|]. split; [by apply MarkDone_absent|].
  split; [by apply Delete_absent|].
  intros r Hp.
  assert (Hne : Get (Query r) "id" ≠ "").
  { intros He. rewrite He, Atoi_empty in Hp. discriminate. }
  split; intros Hm.
  - unfold updateTodoHandler. pass_guard Hm.
    rewrite bool_decide_eq_false_2 by done.
    by rewrite Hp, (MarkDone_absent _ _ Hnone).
  - unfold deleteTodoHandler. pass_guard Hm.
    rewrite bool_decide_eq_false_2 by done.
    by rewrite Hp, (Delete_absent _ _ Hnone).
Qed.

Lemma never_issued_not_found_witness :
  let ops := [OpCreate "a"; OpCreate "b"; OpDelete 1] in
  let s := store (run ops) in
  (0 ∉ issued (run ops)) ∧
  updateTodoHandler {| Method := "PUT"; Path := "/todos/update";
                       Query := {["id" := ["0"]]}; Body := None |} s
    = (errorResponse 404 (Some applicationJSON), s) ∧
  Delete 3 s = (false, s).
Proof.
  intros ops s.
  assert (H0 : 0 ∉ issued (run ops)).
  { intros H. change (issued (run ops)) with [2; 1] in H.
    rewrite !elem_of_cons, elem_of_nil in H. intuition discriminate. }
  assert (H3 : 3 ∉ issued (run ops)).
  { intros H. change (issued (run ops)) with [2; 1] in H.
    rewrite !elem_of_cons, elem_of_nil in H. intuition discriminate. }
  split; [exact H0|]. split.
  - destruct (never_issued_not_found ops 0 H0) as (_ & _ & _ & Hh).
    apply (Hh {| Method := "PUT"; Path := "/todos/update";
                 Query := {["id" := ["0"]]}; Body := None |}); reflexivity.
  - exact (proj1 (proj2 (proj2 (never_issued_not_found ops 3 H3)))).
Defined.

(** X8: a todo is done only if a MarkDone was run on its id: Create stores
    [done = false] and no other operation sets the flag. *)
Theorem done_only_by_MarkDone (ops : list Op) (k : Z) (t : Todo) :
  todos (store (run ops)) !! k = Some t → Done t = true → OpMarkDone k ∈ ops.
Proof.
  revert t. induction ops as [|op ops IH] using rev_ind; intros t Hk Hd.
  - change (todos (store (run []))) with (∅ : gmap Z Todo) in Hk.
    by rewrite lookup_empty in Hk.
  - rewrite run_snoc in Hk. unfold tstep in Hk. cbn [store] in Hk.
    apply elem_of_app.
    destruct (exec_lookup op (store (run ops)) k)
      as [Heq|[(title & -> & ->)|[(-> & _)|(-> & Hnone)]]].
    + left. rewrite Heq in Hk. by apply (IH t).
    + cbn [exec] in Hk. rewrite Create_todos, lookup_insert_eq in Hk.
      injection Hk as <-. discriminate.
    + right. by apply list_elem_of_singleton.
    + rewrite Hnone in Hk. discriminate.
Qed.

Lemma done_only_by_MarkDone_witness :
  let ops := [OpCreate "a"; OpCreate "b"; OpMarkDone 2; OpList] in
  todos (store (run ops)) !! 2 = Some {| ID := 2; Title := "b"; Done := true |} ∧
  OpMarkDone 2 ∈ ops.
Proof.
  intros ops.
  assert (H : todos (store (run ops)) !! 2 = Some {| ID := 2; Title := "b"; Done := true |})
    by reflexivity.
  split; [exact H|]. exact (done_only_by_MarkDone ops 2 _ H eq_refl).
Defined.

(** X9: as long as at most [maxInt] todos are created in all, the id and the
    title stored under a key never change: whatever runs afterwards, the key
    holds a todo with the same id and title, unless it was deleted. *)
Theorem title_never_changes (ops more : list Op) (k : Z) (t : Todo) :
  creates (ops ++ more) ≤ maxInt →
  todos (store (run ops)) !! k = Some t →
  match todos (store (run (ops ++ more))) !! k with
  | Some t' => ID t' = ID t ∧ Title t' = Title t
  | None => OpDelete k ∈ more
  end.
Proof.
  intros Hc Hk.
  induction more as [|op more IH] using rev_ind.
  - by rewrite app_nil_r, Hk.
  - rewrite app_assoc, creates_snoc in Hc.
    rewrite app_assoc, run_snoc. unfold tstep. cbn [store].
    assert (Hc' : creates (ops ++ more) ≤ maxInt) by (destruct (isCreate op); lia).
    specialize (IH Hc').
    destruct (exec_lookup op (store (run (ops ++ more))) k)
      as [Heq|[(title & -> & Hnext)|[(-> & u & Hu & Hnew)|(-> & Hnone)]]].
    + rewrite Heq. destruct (todos (store (run (ops ++ more))) !! k); [done|].
      apply elem_of_app. by left.
    + exfalso. simpl in Hc. revert Hnext. apply nextID_above; [lia|].
      pose proof (creates_nonneg more). rewrite creates_app in Hc.
      destruct (run_belowNext ops) as (_ & _ & Hkeys & _); [lia|].
      apply Hkeys. by rewrite Hk.
    + rewrite Hnew. rewrite Hu in IH. done.
    + rewrite Hnone. apply elem_of_app. right. by apply list_elem_of_singleton.
Qed.

Lemma title_never_changes_witness :
  let ops := [OpCreate "a"; OpCreate "b"] in
  let more := [OpMarkDone 1; OpCreate "c"; OpDelete 2; OpMarkDone 1] in
  creates (ops ++ more) ≤ maxInt ∧
  match todos (store (run (ops ++ more))) !! 1 with
  | Some t' => ID t' = 1 ∧ Title t' = "a"
  | None => OpDelete 1 ∈ more
  end.
Proof.
  intros ops more.
  assert (Hc : creates (ops ++ more) ≤ maxInt) by (by vm_compute).
  split; [exact Hc|].
  exact (title_never_changes ops more 1 {| ID := 1; Title := "a"; Done := false |}
           Hc eq_refl).
Defined.

(** X10: as long as at most [maxInt] todos are created in all, an id that was
    issued and is no longer in the map never comes back: no later operation
    puts a todo under it again. *)
Theorem deleted_never_returns (ops more : list Op) (k : Z) :
  creates (ops ++ more) ≤ maxInt →
  k ∈ issued (run ops) →
  todos (store (run ops)) !! k = None →
  todos (store (run (ops ++ more))) !! k = None.
Proof.
  intros Hc Hiss Hk.
  induction more as [|op more IH] using rev_ind.
  - by rewrite app_nil_r.
  - rewrite app_assoc, creates_snoc in Hc.
    rewrite app_assoc, run_snoc. unfold tstep. cbn [store].
    assert (Hc' : creates (ops ++ more) ≤ maxInt) by (destruct (isCreate op); lia).
    specialize (IH Hc').
    destruct (exec_lookup op (store (run (ops ++ more))) k)
      as [Heq|[(title & -> & Hnext)|[(-> & u & Hu & _)|(-> & Hnone)]]].
    + by rewrite Heq.
    + exfalso. simpl in Hc. revert Hnext. apply nextID_above; [lia|].
      pose proof (creates_nonneg more). rewrite creates_app in Hc.
      destruct (run_belowNext ops) as (_ & _ & _ & Hissued & _); [lia|].
      by apply Hissued.
    + rewrite Hu in IH. discriminate.
    + done.
Qed.

Lemma deleted_never_returns_witness :
  let ops := [OpCreate "a"; OpCreate "b"; OpDelete 1] in
  let more := [OpCreate "c"; OpMarkDone 1; OpCreate "d"] in
  creates (ops ++ more) ≤ maxInt ∧ 1 ∈ issued (run ops) ∧
  todos (store (run (ops ++ more))) !! 1 = None.
Proof.
  intros ops more.
  assert (Hc : creates (ops ++ more) ≤ maxInt) by (by vm_compute).
  assert (Hi : 1 ∈ issued (run ops)).
  { change (issued (run ops)) with [2; 1]. rewrite !elem_of_cons. auto. }
  split; [exact Hc|]. split; [exact Hi|].
  exact (deleted_never_returns ops more 1 Hc Hi eq_refl).
Defined.

(** X11: while fewer than [maxInt] todos have been created, the new one
    included,
    deleting the todo just created gives back the map as it was before the
    Create, but not the counter: [nextID] stays one higher, so that id is not
    handed out again. *)
Theorem create_then_delete (ops : list Op) (title : string) :
  creates (ops ++ [OpCreate title]) < maxInt →
  let s := store (run ops) in
  store (run (ops ++ [OpCreate title; OpDelete (nextID s)])) =
    {| todos := todos s; nextID := nextID s + 1 |}.
Proof.
  intros Hc s. subst s. rewrite creates_snoc in Hc. simpl in Hc.
  pose proof (creates_nonneg ops) as Hnn.
  destruct (run_belowNext ops) as (Hn & _ & Hkeys & _); [lia|].
  rewrite run_app. unfold runFrom. cbn [foldl tstep store exec].
  set (s := store (run ops)) in *. clearbody s.
  assert (Hfree : todos s !! nextID s = None).
  { apply eq_None_not_Some. intros Hk. apply Hkeys in Hk. lia. }
  assert (Hw : wrapInt (nextID s + 1) = nextID s + 1).
  { apply wrapInt_succ; [|lia]. unfold isInt.
    rewrite maxInt_val, minInt_val in *. lia. }
  unfold Delete. rewrite Create_todos, lookup_insert_eq.
  cbn [snd todos nextID]. rewrite delete_insert_id by done.
  by rewrite Create_nextID, Hw.
Qed.

Lemma create_then_delete_witness :
  let ops := [OpCreate "a"; OpMarkDone 1] in
  creates (ops ++ [OpCreate "b"]) < maxInt ∧
  store (run (ops ++ [OpCreate "b"; OpDelete 2])) =
    {| todos := {[1 := {| ID := 1; Title := "a"; Done := true |}]}; nextID := 3 |}.
Proof.
  intros ops.
  assert (Hc : creates (ops ++ [OpCreate "b"]) < maxInt) by (by vm_compute).
  split; [exact Hc|].
  exact (create_then_delete ops "b" Hc).
Defined.

(** * Ids as text *)

Lemma wrapInt_range z : isInt (wrapInt z).
Proof.
  unfold isInt, wrapInt. rewrite maxInt_val, minInt_val.
  change (2 ^ (intSize - 1)) with 9223372036854775808.
  change (2 ^ intSize) with 18446744073709551616.
  pose proof (Z.mod_pos_bound (z + 9223372036854775808) 18446744073709551616).
  lia.
Qed.

(** In a reachable store the counter and every key are [int] values. *)
Lemma reachable_isInt s :
  reachable s → isInt (nextID s) ∧ ∀ k, is_Some (todos s !! k) → isInt k.
Proof.
  intros [ops ->]. induction ops as [|op ops [IHn IHk]] using rev_ind.
  - split.
    + unfold isInt. rewrite maxInt_val, minInt_val. simpl. lia.
    + intros k [? Hk]. change (todos (store (run []))) with (∅ : gmap Z Todo) in Hk.
      by rewrite lookup_empty in Hk.
  - rewrite run_snoc. unfold tstep. cbn [store].
    destruct (isCreate op) eqn:Hop.
    + destruct op as [|title| |]; try discriminate. cbn [exec]. split.
      * rewrite Create_nextID. apply wrapInt_range.
      * intros k Hk. rewrite Create_todos in Hk.
        destruct (decide (nextID (store (run ops)) = k)) as [<-|Hne]; [done|].
        rewrite lookup_insert_ne in Hk by done. by apply IHk.
    + split.
      * by rewrite exec_nextID_not_create.
      * intros k Hk. by apply IHk, (exec_keys_not_create op).
Qed.

(** X12: the key under which the list shows a todo addresses that todo: in a
    reachable store, for every entry [id ↦ t] the list has the member
    [Itoa id], that text parses back to [id], a PUT to /todos/update with it
    as [id] parameter answers 200 with [t] marked done, and a DELETE to
    /todos/delete with it answers 204 and removes the entry. *)
Theorem list_key_addresses_todo (s : Store) (id : Z) (t : Todo) :
  reachable s → todos s !! id = Some t →
  (∀ r, ∃ members,
      RespBody (getTodosHandler r s).1 = JsonDoc (JObject members) ∧
      (Itoa id, encodeTodo t) ∈ members) ∧
  Atoi (Itoa id) = Some id ∧
  (∀ r, Method r = MethodPut → Get (Query r) "id" = Itoa id →
        updateTodoHandler r s =
          ({| Status := StatusOK; ContentType := Some applicationJSON;
              RespBody := JsonDoc (encodeTodo {| ID := ID t; Title := Title t;
                                                 Done := true |}) |},
           (MarkDone id s).2)) ∧
  (∀ r, Method r = MethodDelete → Get (Query r) "id" = Itoa id →
        deleteTodoHandler r s =
          (errorResponse StatusNoContent None,
           {| todos := delete id (todos s); nextID := nextID s |})).
Proof.
  intros Hr Hin.
  assert (Hint : isInt id) by (apply (reachable_isInt s Hr); by rewrite Hin).
  pose proof (Atoi_Itoa id Hint) as Hrt.
  assert (Hne : Itoa id ≠ "").
  { intros He. rewrite He, Atoi_empty in Hrt. discriminate. }
  split; [|split; [done|split]].
  - intros r. destruct (encodeTodos_members (todos s)) as (ms & Hms & Hiff & _).
    exists ms. split.
    + change (JsonDoc (encodeTodos (todos s)) = JsonDoc (JObject ms)). by rewrite Hms.
    + apply Hiff. by exists id, t.
  - intros r Hm Hq. unfold updateTodoHandler. pass_guard Hm.
    rewrite Hq, bool_decide_eq_false_2 by done.
    by rewrite Hrt, (MarkDone_present _ _ _ Hin).
  - intros r Hm Hq. unfold deleteTodoHandler. pass_guard Hm.
    rewrite Hq, bool_decide_eq_false_2 by done.
    rewrite Hrt. unfold Delete. by rewrite Hin.
Qed.

Lemma list_key_addresses_todo_witness :
  let s := store (run [OpCreate "a"; OpCreate "b"]) in
  reachable s ∧
  Atoi (Itoa 2) = Some 2 ∧
  (updateTodoHandler {| Method := "PUT"; Path := "/todos/update";
                        Query := {["id" := [Itoa 2]]}; Body := None |} s).1 =
    {| Status := 200; ContentType := Some applicationJSON;
       RespBody := JsonDoc (encodeTodo {| ID := 2; Title := "b"; Done := true |}) |}.
Proof.
  intros s.
  assert (Hr : reachable s) by (by eexists).
  destruct (list_key_addresses_todo s 2 {| ID := 2; Title := "b"; Done := false |} Hr eq_refl)
    as (_ & Hrt & Hput & _).
  split; [exact Hr|]. split; [exact Hrt|].
  rewrite Hput; reflexivity.
Defined.

(** X13: after a POST to /todos/create that is answered 200 the list holds the
    new
    todo, with the title sent and [done = false], under the decimal text of
    the id returned, and still holds every todo it held under another id. *)
Theorem create_then_list (r : Request) (s : Store) (req : CreateTodoRequest) :
  Method r = MethodPost →
  decodeCreateTodoRequest (Body r) = Some req →
  ∀ r', ∃ members,
    RespBody (getTodosHandler r' (createTodoHandler r s).2).1
      = JsonDoc (JObject members) ∧
    (Itoa (nextID s),
     encodeTodo {| ID := nextID s; Title := reqTitle req; Done := false |}) ∈ members ∧
    (∀ k t, k ≠ nextID s → todos s !! k = Some t →
            (Itoa k, encodeTodo t) ∈ members).
Proof.
  intros Hm Hd r'.
  assert (Hs : (createTodoHandler r s).2 = (Create (reqTitle req) s).2).
  { unfold createTodoHandler. pass_guard Hm. by rewrite Hd. }
  rewrite Hs.
  destruct (encodeTodos_members (todos (Create (reqTitle req) s).2))
    as (ms & Hms & Hiff & _).
  exists ms. split; [|split].
  - change (JsonDoc (encodeTodos (todos (Create (reqTitle req) s).2))
            = JsonDoc (JObject ms)). by rewrite Hms.
  - apply Hiff. eexists _, _. split; [|done].
    rewrite Create_todos. apply lookup_insert_eq.
  - intros k t Hk Hin. apply Hiff. exists k, t. split; [|done].
    rewrite Create_todos. by rewrite lookup_insert_ne.
Qed.

Lemma create_then_list_witness :
  let r := {| Method := "POST"; Path := "/todos/create"; Query := ∅;
              Body := Some (JObject [("title", JString "walk dog")]) |} in
  let s := (Create "buy milk" initStore).2 in
  ∃ members,
    RespBody (getTodosHandler r (createTodoHandler r s).2).1
      = JsonDoc (JObject members) ∧
    ("2", encodeTodo {| ID := 2; Title := "walk dog"; Done := false |}) ∈ members.
Proof.
  intros r s.
  destruct (create_then_list r s {| reqTitle := "walk dog" |} eq_refl eq_refl r)
    as (ms & Hb & Hnew & _).
  exists ms. split; [exact Hb|exact Hnew].
Defined.

(** X14: the members of the list are in ascending order of their key text
    (compared byte by byte, so ["10"] comes before ["2"]), and there is one
    member per todo. *)
Theorem list_sorted_by_key_text (r : Request) (s : Store) :
  ∃ members,
    RespBody (getTodosHandler r s).1 = JsonDoc (JObject members) ∧
    Sorted keyLe members ∧
    length members = size (todos s).
Proof.
  eexists. split; [reflexivity|]. split.
  - apply Sorted_merge_sort. intros a b. apply String.leb_total.
  - rewrite merge_sort_Permutation, length_fmap. apply length_map_to_list.
Qed.

Example list_order_example :
  encodeTodos {[2 := {| ID := 2; Title := "b"; Done := false |};
                10 := {| ID := 10; Title := "j"; Done := true |}]} =
  JObject [("10", encodeTodo {| ID := 10; Title := "j"; Done := true |});
           ("2", encodeTodo {| ID := 2; Title := "b"; Done := false |})].
Proof. reflexivity. Qed.

(** ** The [id] parameter *)

Lemma strip_sign_cases s :
  (∃ rest, s = String "+" rest ∧
     match s with
     | String "+"%char rest => (false, rest)
     | String "-"%char rest => (true, rest)
     | _ => (false, s)
     end = (false, rest)) ∨
  (∃ rest, s = String "-" rest ∧
     match s with
     | String "+"%char rest => (false, rest)
     | String "-"%char rest => (true, rest)
     | _ => (false, s)
     end = (true, rest)) ∨
  match s with
  | String "+"%char rest => (false, rest)
  | String "-"%char rest => (true, rest)
  | _ => (false, s)
  end = (false, s).
Proof.
  destruct s as [|[[] [] [] [] [] [] [] []] rest]; simpl; eauto.
Qed.

Lemma parseDigits_allDigits s : ∀ acc n,
  parseDigits s acc = Some n → allDigits s = true.
Proof.
  induction s as [|c s IH]; intros acc n; simpl; [done|].
  unfold digitVal, isDigit. case_bool_decide; [|done].
  intros Hd. simpl. by apply IH in Hd.
Qed.

(** X15: which [id] parameters get past the parsing: if [Atoi] accepts a text,
    the text is a non-empty run of decimal digits, optionally preceded by one
    [+] or [-], and the value is an [int]; anything else (blanks, a decimal
    point, letters, a bare sign, a value out of range) is a 400. *)
Theorem Atoi_accepts (s : string) (z : Z) :
  Atoi s = Some z →
  isInt z ∧
  ∃ sign digits,
    s = (sign ++ digits)%string ∧
    (sign = "" ∨ sign = "+" ∨ sign = "-") ∧
    digits ≠ "" ∧ allDigits digits = true.
Proof.
  intros H. split; [by apply Atoi_isInt in H|].
  unfold Atoi in H.
  destruct (strip_sign_cases s) as [(rest & Hs & Hp)|[(rest & Hs & Hp)|Hp]];
    rewrite Hp in H; clear Hp; try subst s.
  - exists "+", rest. split; [done|]. split; [auto|].
    destruct rest as [|c rest]; [done|]. split; [done|].
    destruct (parseDigits (String c rest) 0) eqn:Hd; [|done].
    by apply parseDigits_allDigits in Hd.
  - exists "-", rest. split; [done|]. split; [auto|].
    destruct rest as [|c rest]; [done|]. split; [done|].
    destruct (parseDigits (String c rest) 0) eqn:Hd; [|done].
    by apply parseDigits_allDigits in Hd.
  - exists "", s. split; [done|]. split; [auto|].
    destruct s as [|c rest]; [done|]. split; [done|].
    destruct (parseDigits (String c rest) 0) eqn:Hd; [|done].
    by apply parseDigits_allDigits in Hd.
Qed.

Lemma Atoi_accepts_witness :
  Atoi "-42" = Some (-42) ∧ isInt (-42) ∧
  ∃ sign digits, "-42" = (sign ++ digits)%string ∧ digits ≠ "" ∧ allDigits digits = true.
Proof.
  assert (H : Atoi "-42" = Some (-42)) by reflexivity.
  destruct (Atoi_accepts "-42" (-42) H) as (Hint & sign & digits & Hs & _ & Hne & Hd).
  split; [exact H|]. split; [exact Hint|].
  exists sign, digits. split; [exact Hs|]. split; [exact Hne|exact Hd].
Defined.

(** * Operations that commute *)

(** X16: marking two todos done, deleting two todos, and marking one done while
    deleting another give the same store in either order; deleting a todo
    right after marking it done is the same as deleting it. *)
Theorem operations_commute (s : Store) (i j : Z) :
  exec (OpMarkDone i) (exec (OpMarkDone j) s) = exec (OpMarkDone j) (exec (OpMarkDone i) s) ∧
  exec (OpDelete i) (exec (OpDelete j) s) = exec (OpDelete j) (exec (OpDelete i) s) ∧
  (i ≠ j →
   exec (OpMarkDone i) (exec (OpDelete j) s) = exec (OpDelete j) (exec (OpMarkDone i) s)) ∧
  exec (OpDelete i) (exec (OpMarkDone i) s) = exec (OpDelete i) s.
Proof.
  destruct s as [m n]. cbn [exec]. unfold MarkDone, Delete. cbn [todos nextID].
  split; [|split; [|split]].
  - destruct (decide (i = j)) as [->|Hne]; [done|].
    destruct (m !! i) as [ti|] eqn:Hi, (m !! j) as [tj|] eqn:Hj; cbn [snd todos nextID];
      rewrite ?lookup_insert_ne by done; rewrite ?Hi, ?Hj; cbn [snd todos nextID];
      try done.
    f_equal. by apply insert_insert_ne.
  - destruct (decide (i = j)) as [->|Hne]; [done|].
    destruct (m !! i) as [ti|] eqn:Hi, (m !! j) as [tj|] eqn:Hj; cbn [snd todos nextID];
      rewrite ?lookup_delete_ne by done; rewrite ?Hi, ?Hj; cbn [snd todos nextID];
      try done.
    f_equal. apply delete_delete.
  - intros Hne.
    destruct (m !! i) as [ti|] eqn:Hi, (m !! j) as [tj|] eqn:Hj; cbn [snd todos nextID];
      rewrite ?lookup_delete_ne by done; rewrite ?lookup_insert_ne by done;
      rewrite ?Hi, ?Hj; cbn [snd todos nextID]; try done.
    f_equal. symmetry. by apply delete_insert_ne.
  - destruct (m !! i) as [ti|] eqn:Hi; cbn [snd todos nextID]; rewrite ?Hi; [|done].
    rewrite lookup_insert_eq. cbn [snd]. f_equal. apply delete_insert_eq.
Qed.

Lemma operations_commute_witness :
  let s := store (run [OpCreate "a"; OpCreate "b"; OpCreate "c"]) in
  exec (OpMarkDone 1) (exec (OpDelete 2) s) = exec (OpDelete 2) (exec (OpMarkDone 1) s).
Proof.
  intros s.
  destruct (operations_commute s 1 2) as (_ & _ & H & _).
  apply H. discriminate.
Defined.

(** * Requests served in sequence *)

Lemma serveAll_run_from rs : ∀ ops0,
  length (serveAll rs (store (run ops0))).1 = length rs ∧
  ∃ ops, (serveAll rs (store (run ops0))).2 = store (run (ops0 ++ ops)) ∧
         (length ops ≤ length rs)%nat.
Proof.
  induction rs as [|r rs IH]; intros ops0.
  - split; [done|]. exists []. by rewrite app_nil_r.
  - cbn [serveAll].
    destruct (serve r (store (run ops0))) as [a s1] eqn:Hs.
    assert (Hs1 : s1 = (serve r (store (run ops0))).2) by (by rewrite Hs).
    destruct (serve_exec r (store (run ops0))) as [He|[op He]];
      rewrite He in Hs1; subst s1.
    + destruct (IH ops0) as [Hl (ops & Ho & Hlen)].
      destruct (serveAll rs (store (run ops0))) as [answers s2].
      simpl in *. split; [by rewrite Hl|]. exists ops. split; [done|lia].
    + assert (Hx : exec op (store (run ops0)) = store (run (ops0 ++ [op])))
        by (by rewrite run_snoc).
      rewrite Hx.
      destruct (IH (ops0 ++ [op])%list) as [Hl (ops & Ho & Hlen)].
      destruct (serveAll rs (store (run (ops0 ++ [op])))) as [answers s2].
      simpl in *. split; [by rewrite Hl|]. exists (op :: ops).
      split; [by rewrite <- app_assoc in Ho|simpl; lia].
Qed.

Lemma creates_le_length ops : creates ops ≤ Z.of_nat (length ops).
Proof. unfold creates. pose proof (length_filter isCreate ops). lia. Qed.

(** X17: serving any list of requests from the fresh store answers each of them
    and runs at most one store operation per request: the store reached is
    the store of a run of operations no longer than the list, so what holds
    of runs holds of the server's store. *)
Theorem serveAll_is_a_run (rs : list Request) :
  length (serveAll rs initStore).1 = length rs ∧
  ∃ ops,
    (serveAll rs initStore).2 = store (run ops) ∧
    (length ops ≤ length rs)%nat ∧
    creates ops ≤ Z.of_nat (length rs).
Proof.
  change initStore with (store (run [])).
  destruct (serveAll_run_from rs []) as [Hl (ops & Ho & Hlen)].
  split; [done|]. exists ops. split; [done|]. split; [done|].
  pose proof (creates_le_length ops). lia.
Qed.

Lemma run_coherent ops : coherent (store (run ops)).
Proof.
  induction ops as [|op ops IH] using rev_ind.
  - intros k t Hk. change (todos (store (run []))) with (∅ : gmap Z Todo) in Hk.
    by rewrite lookup_empty in Hk.
  - rewrite run_snoc. by apply coherent_exec.
Qed.

(** X18: after fewer than [maxInt] requests served from the fresh store, every
    todo in the map sits under a positive id below [nextID] and carries that
    id, and [nextID] is at most one more than the number of requests. *)
Theorem server_ids_positive (rs : list Request) :
  Z.of_nat (length rs) < maxInt →
  let s := (serveAll rs initStore).2 in
  1 ≤ nextID s ≤ 1 + Z.of_nat (length rs) ∧
  ∀ k t, todos s !! k = Some t → 1 ≤ k < nextID s ∧ ID t = k.
Proof.
  intros Hlen s. subst s. change initStore with (store (run [])).
  destruct (serveAll_run_from rs []) as [_ (ops & Ho & Hl)].
  rewrite Ho. simpl.
  pose proof (creates_le_length ops) as Hc.
  pose proof (creates_nonneg ops) as Hnn.
  destruct (run_belowNext ops) as (Hn & _ & Hkeys & _); [lia|].
  split; [lia|]. intros k t Hk. split.
  - apply Hkeys. by rewrite Hk.
  - by apply (run_coherent ops).
Qed.

Lemma server_ids_positive_witness :
  let post t := {| Method := "POST"; Path := "/todos/create"; Query := ∅;
                   Body := Some (JObject [("title", JString t)]) |} in
  let rs := [post "a"; post "b";
             {| Method := "DELETE"; Path := "/todos/delete";
                Query := {["id" := ["1"]]}; Body := None |};
             {| Method := "GET"; Path := "/todos"; Query := ∅; Body := None |}] in
  Z.of_nat (length rs) < maxInt ∧
  (serveAll rs initStore).2 =
    {| todos := {[2 := {| ID := 2; Title := "b"; Done := false |}]}; nextID := 3 |} ∧
  1 ≤ nextID (serveAll rs initStore).2 ≤ 1 + Z.of_nat (length rs).
Proof.
  intros post rs.
  assert (Hlen : Z.of_nat (length rs) < maxInt) by (by vm_compute).
  split; [exact Hlen|]. split; [reflexivity|].
  exact (proj1 (server_ids_positive rs Hlen)).
Defined.
